(** * gzip_parser: header and trailer parsing of a gzip file (RFC 1952)

    A shallow embedding of [src/gzip_parser.c].  The program is one [main]
    that talks to the operating system through [open], [read], [lseek] and
    [close] and reports what it finds with [printf].  The embedding keeps
    that shape: a [world] holds the file named on the command line, the
    state of the descriptor and everything printed so far; the system calls
    are operations of a small state-and-exit monad; [main] is written block
    by block in the order of the source.

    Automatic variables of C start out indeterminate.  They are modelled as
    [option byte] cells ([None]: never written); using an indeterminate
    value, storing outside an array, or declaring a variable length array
    of no elements is the result [Undefined].  The two [do ... while]
    loops take fuel; the lemmas show that the fuel [main] gives them is
    enough.  Integers wider than a byte are decoded little-endian, as on
    the hosts the structure overlay is written for.  The file is a regular
    file: it has a size, and [lseek] on it fails for a negative target
    offset only. *)

From Stdlib Require Import ZArith Lia Bool.
From Stdlib.Strings Require Import Byte.
From stdpp Require Import base list.

Local Open Scope Z_scope.

(** ** Bytes and fixed-width integers *)

Definition byte_val (b : byte) : Z := Z.of_N (Byte.to_N b).
Arguments byte_val : simpl never.

(** Conversion to an unsigned integer type of [width] bits (C11 6.3.1.3). *)
Definition to_uint (width : Z) (z : Z) : Z := z mod 2 ^ width.
Definition uint8 : Z -> Z := to_uint 8.
Definition uint32 : Z -> Z := to_uint 32.

(** The value of an integer object whose bytes are [bs], lowest address
    first, on the little-endian hosts the program is written for. *)
Fixpoint le_decode (bs : list byte) : Z :=
  match bs with
  | [] => 0
  | b :: bs' => byte_val b + 256 * le_decode bs'
  end.

(** Memory of an automatic variable: one cell per byte. *)
Abbreviation cells := (list (option byte)).

Definition uninit (size : Z) : cells := replicate (Z.to_nat size) None.

(** [read] fills the start of the destination with the bytes it got and
    leaves the rest of the destination as it was. *)
Definition overlay (bs : list byte) (mem : cells) : cells :=
  (Some <$> bs) ++ drop (length bs) mem.

(** All the bytes of an object, if every one of them has been written. *)
Fixpoint defined (mem : cells) : option (list byte) :=
  match mem with
  | [] => Some []
  | None :: _ => None
  | Some b :: mem' =>
      match defined mem' with
      | Some bs => Some (b :: bs)
      | None => None
      end
  end.

(** [buf[i] = v]: [None] when [i] is outside the array. *)
Definition store (buf : cells) (i : Z) (v : byte) : option cells :=
  if (0 <=? i) && (i <? Z.of_nat (length buf))
  then Some (<[Z.to_nat i := Some v]> buf)
  else None.

(** What [printf("%s", buf)] prints: the bytes before the first zero byte.
    [None] when the scan meets an indeterminate byte or leaves the array. *)
Fixpoint c_string (buf : cells) : option (list byte) :=
  match buf with
  | [] => None
  | None :: _ => None
  | Some b :: buf' =>
      if byte_val b =? 0 then Some []
      else match c_string buf' with
           | Some s => Some (b :: s)
           | None => None
           end
  end.

(** ** The header record *)

(** The bit numbers of the flag byte, as [#define]d in the source. *)
Inductive flag_name := FTEXT | FHCRC | FEXTRA | FNAME | FCOMMENT.

Definition flag_bit (f : flag_name) : Z :=
  match f with
  | FTEXT => 0
  | FHCRC => 1
  | FEXTRA => 2
  | FNAME => 3
  | FCOMMENT => 4
  end.

Record gzip_header := Header {
  id1 : Z;
  id2 : Z;
  cm : Z;
  flag : Z;
  mtime : Z;
  xfl : Z;
  os : Z;
  xlen : Z
}.

(** [sizeof(struct gzip_header)]: four [uint8_t], a [uint32_t] at offset 4,
    two [uint8_t] and a [uint16_t] at offset 10. *)
Definition sizeof_gzip_header : Z := 12.

Definition field (mem : list byte) (off size : nat) : Z :=
  le_decode (take size (drop off mem)).

Definition header_of_bytes (mem : list byte) : gzip_header :=
  {| id1 := field mem 0 1;
     id2 := field mem 1 1;
     cm := field mem 2 1;
     flag := field mem 3 1;
     mtime := field mem 4 4;
     xfl := field mem 8 1;
     os := field mem 9 1;
     xlen := field mem 10 2 |}.

(** [header.flag & (bit << f)] with [bit = 1], as a truth value. *)
Definition flag_set (h : gzip_header) (f : flag_name) : bool :=
  negb (Z.land (flag h) (Z.shiftl 1 (flag_bit f)) =? 0).

(** ** Output *)

(** One constructor per [printf] of the source, in the order of the source.
    Formatting of numbers is left out: an event carries the value printed. *)
Inductive event :=
  | PleaseProvideFilename              (* "please provide a filename" *)
  | TooFewBytes                        (* "read too few bytes!" *)
  | ValidGzip                          (* "valid gzip file" *)
  | InvalidGzip                        (* "invalid gzip file" *)
  | Deflate                            (* "standard gzip compression method ..." *)
  | FlagsSet                           (* "flags set: " *)
  | FlagName (f : flag_name)           (* "FTEXT |", "FHCRC |", ... *)
  | FlagsEnd                           (* "\b \b\n" *)
  | CreationTime (t : Z)               (* the line printed for a non-zero mtime *)
  | Xfl (x : Z)                        (* "XFL: 0x%x" *)
  | Os (unix : bool)                   (* "OS: UNIX" or "OS: non-UNIX" *)
  | TooFewExtra                        (* "read too few bytes while reading extra header!" *)
  | ExtraField (bs : list byte)        (* "extra field: " and the bytes *)
  | TooFewFilename                     (* "read too few bytes while reading filename!" *)
  | Filename (s : list byte)           (* "filename: %s" *)
  | Comment (s : list byte)            (* "comment: %s" *)
  | TooFewHcrc                         (* "read too few bytes while reading header checksum!" *)
  | HeaderChecksum (c : Z)             (* "header checksum: 0x%x" *)
  | SeekError                          (* "error positioning file offset at last 8 bytes!" *)
  | TooFewChecksum                     (* "read too few bytes while reading data checksum!" *)
  | Checksum (c : Z)                   (* "checksum: 0x%x" *)
  | TooFewIsize                        (* "read too few bytes while reading data size!" *)
  | Isize (n : Z).                     (* "isize: 0x%x" *)

(** ** The world: one file, one descriptor, standard output *)

Record world := World {
  disk : option (list byte);   (* the file named by argv[1]; None: it cannot be opened *)
  fd_open : bool;              (* is the descriptor returned by open still open *)
  offset : Z;                  (* file offset of that descriptor *)
  stdout : list event          (* everything printed so far, oldest first *)
}.

Definition boot (d : option (list byte)) : world :=
  {| disk := d; fd_open := false; offset := 0; stdout := [] |}.

Definition set_open (b : bool) (w : world) : world :=
  {| disk := disk w; fd_open := b; offset := offset w; stdout := stdout w |}.

Definition set_offset (pos : Z) (w : world) : world :=
  {| disk := disk w; fd_open := fd_open w; offset := pos; stdout := stdout w |}.

Definition emit (e : event) (w : world) : world :=
  {| disk := disk w; fd_open := fd_open w; offset := offset w;
     stdout := stdout w ++ [e] |}.

(** ** The monad of the program *)

Inductive result (A : Type) :=
  | Val (a : A)            (* the block ran to its end; for [main]: status 0 *)
  | Exit (status : Z)      (* [return status] from [main] *)
  | Undefined              (* behaviour not defined by the C standard *)
  | OutOfFuel.             (* a loop of the model ran out of fuel *)

Arguments Val {A} a.
Arguments Exit {A} status.
Arguments Undefined {A}.
Arguments OutOfFuel {A}.

Definition M (A : Type) : Type := world -> result A * world.

Definition ret {A} (a : A) : M A := fun w => (Val a, w).

Definition bind {A B} (m : M A) (k : A -> M B) : M B :=
  fun w =>
    match m w with
    | (Val a, w') => k a w'
    | (Exit s, w') => (Exit s, w')
    | (Undefined, w') => (Undefined, w')
    | (OutOfFuel, w') => (OutOfFuel, w')
    end.

Definition exit {A} (status : Z) : M A := fun w => (Exit status, w).
Definition undefined {A} : M A := fun w => (Undefined, w).
Definition out_of_fuel {A} : M A := fun w => (OutOfFuel, w).

Declare Scope prog_scope.
Delimit Scope prog_scope with prog.
Bind Scope prog_scope with M.

Notation "x <- c1 ;; c2" := (bind c1 (fun x => c2))
  (at level 100, c1 at level 99, right associativity) : prog_scope.
Notation "c1 ;; c2" := (bind c1 (fun _ => c2))
  (at level 100, right associativity) : prog_scope.

Local Open Scope prog_scope.

Definition when (b : bool) (m : M unit) : M unit := if b then m else ret tt.

Definition printf (e : event) : M unit := fun w => (Val tt, emit e w).

(** An indeterminate value is used: undefined.  Otherwise the value. *)
Definition load (mem : cells) : M (list byte) :=
  match defined mem with
  | Some bs => ret bs
  | None => undefined
  end.

(** ** System calls *)

(** The descriptor a successful [open] returns: 0, 1 and 2 are taken. *)
Definition the_fd : Z := 3.

Definition valid_fd (fd : Z) (w : world) : bool := (fd =? the_fd) && fd_open w.

(** [open(argv[1], O_RDONLY)]: the new descriptor, or -1. *)
Definition open : M Z := fun w =>
  match disk w with
  | Some _ => (Val the_fd, set_offset 0 (set_open true w))
  | None => (Val (-1), w)
  end.

(** [read(fd, buf, count)] on a regular file: the bytes from the file offset
    on, at most [count] of them, are put at the start of [buf] and the offset
    moves past them.  The value is the number of bytes, or -1 (and [buf] is
    left alone) when [fd] is not an open descriptor.  The second component
    is [buf] after the call. *)
Definition read (fd : Z) (buf : cells) (count : Z) : M (Z * cells) := fun w =>
  match disk w with
  | Some data =>
      if valid_fd fd w then
        let bs := take (Z.to_nat count) (drop (Z.to_nat (offset w)) data) in
        (Val (Z.of_nat (length bs), overlay bs buf),
         set_offset (offset w + Z.of_nat (length bs)) w)
      else (Val (-1, buf), w)
  | None => (Val (-1, buf), w)
  end.

Inductive whence := SEEK_CUR | SEEK_END.

(** [lseek(fd, off, whence)] on a regular file: the new offset, or -1 (and
    no move) when the descriptor is bad or the new offset would be
    negative.  A descriptor that cannot seek (a pipe or FIFO, where
    [lseek] fails with ESPIPE) is not a [world] of this model. *)
Definition lseek (fd : Z) (off : Z) (wh : whence) : M Z := fun w =>
  match disk w with
  | Some data =>
      if valid_fd fd w then
        let base := match wh with
                    | SEEK_CUR => offset w
                    | SEEK_END => Z.of_nat (length data)
                    end in
        let pos := base + off in
        if pos <? 0 then (Val (-1), w) else (Val pos, set_offset pos w)
      else (Val (-1), w)
  | None => (Val (-1), w)
  end.

(** [close(fd)]. *)
Definition close (fd : Z) : M Z := fun w =>
  if valid_fd fd w then (Val 0, set_open false w) else (Val (-1), w).

(** ** The program *)

(** [buf[i] = v] as a statement. *)
Definition store_at (buf : cells) (i : Z) (v : byte) : M cells :=
  match store buf i v with
  | Some buf' => ret buf'
  | None => undefined
  end.

(** The value of a [char] variable. *)
Definition load_char (mem : cells) : M byte :=
  match mem with
  | [Some b] => ret b
  | _ => undefined
  end.

(** [printf("%s", buf)] reads [buf] up to its first zero byte. *)
Definition load_string (buf : cells) : M (list byte) :=
  match c_string buf with
  | Some s => ret s
  | None => undefined
  end.

Section Program.

(** [BUFSIZ] of <stdio.h>, the size of the comment array. *)
Variable BUFSIZ : Z.

(** Lines 62-69: the fixed part of the header is read over a zeroed
    [struct gzip_header]. *)
Definition main_header (fd : Z) : M gzip_header :=
  let header := replicate (Z.to_nat sizeof_gzip_header) (Some x00) in
  r <- read fd header sizeof_gzip_header ;;
  let bytes_read := uint32 r.1 in
  if bytes_read <? sizeof_gzip_header
  then printf TooFewBytes ;; close fd ;; exit (-1)
  else mem <- load r.2 ;; ret (header_of_bytes mem).

(** Lines 71-75. *)
Definition main_magic (header : gzip_header) : M unit :=
  if (id1 header =? 0x1f) && (id2 header =? 0x8b)
  then printf ValidGzip
  else printf InvalidGzip ;; exit (-1).

(** Line 76. *)
Definition main_method (header : gzip_header) : M unit :=
  when (cm header =? 0x8) (printf Deflate).

(** Lines 77-97. *)
Definition main_report (header : gzip_header) : M unit :=
  when (negb (flag header =? 0))
    (printf FlagsSet ;;
     when (flag_set header FTEXT) (printf (FlagName FTEXT)) ;;
     when (flag_set header FHCRC) (printf (FlagName FHCRC)) ;;
     when (flag_set header FEXTRA) (printf (FlagName FEXTRA)) ;;
     when (flag_set header FNAME) (printf (FlagName FNAME)) ;;
     when (flag_set header FCOMMENT) (printf (FlagName FCOMMENT)) ;;
     printf FlagsEnd) ;;
  when (negb (mtime header =? 0)) (printf (CreationTime (mtime header))) ;;
  printf (Xfl (xfl header)) ;;
  printf (Os (os header =? 0x3)).

(** Lines 99-110: the extra field.  Line 100 declares the variable length
    array [uint8_t extra_field[header.xlen]]: its size has to be greater
    than zero (C11 6.7.6.2p5), so the declaration is undefined for
    [xlen = 0]. *)
Definition main_extra (fd : Z) (header : gzip_header) : M unit :=
  when (flag_set header FEXTRA)
    (if xlen header =? 0 then undefined
     else
       let extra_field := uninit (xlen header) in
       r <- read fd extra_field (xlen header) ;;
       let bytes_read := uint32 r.1 in
       if bytes_read <? xlen header
       then printf TooFewExtra ;; close fd ;; exit (-1)
       else bs <- load r.2 ;; printf (ExtraField bs)).

(** The [do ... while (c != 0 && len < size)] loops of lines 120-128 and
    138-146.  The two differ in the size of the array and in the type of
    [len] ([uint8_t] and [uint32_t]: [wrap]); both print the same message
    when [read] gives less than one byte.  [c] is the one-byte memory of
    the variable [c], [fuel] bounds the number of iterations. *)
Fixpoint string_loop (size : Z) (wrap : Z -> Z) (fd : Z)
    (fuel : nat) (c : cells) (len : Z) (buf : cells) : M cells :=
  match fuel with
  | O => out_of_fuel
  | S fuel' =>
      r <- read fd c 1 ;;
      let bytes_read := uint32 r.1 in
      if bytes_read <? 1
      then printf TooFewFilename ;; close fd ;; exit (-1)
      else
        let c := r.2 in
        v <- load_char c ;;
        buf <- store_at buf len v ;;
        let len := wrap (len + 1) in
        if negb (byte_val v =? 0) && (len <? size)
        then string_loop size wrap fd fuel' c len buf
        else ret buf
  end.

(** Lines 112-131: the original file name. *)
Definition main_filename (fd : Z) (header : gzip_header) : M unit :=
  when (flag_set header FNAME)
    (let filename := uninit 128 in
     let c := uninit 1 in
     let len := 0 in
     when (negb (flag_set header FEXTRA)) (lseek fd (-2) SEEK_CUR ;; ret tt) ;;
     filename <- string_loop 128 uint8 fd 128%nat c len filename ;;
     filename <- store_at filename 127 x00 ;;
     s <- load_string filename ;;
     printf (Filename s)).

(** Lines 133-149: the comment. *)
Definition main_comment (fd : Z) (header : gzip_header) : M unit :=
  when (flag_set header FCOMMENT)
    (let comment := uninit BUFSIZ in
     let c := uninit 1 in
     let len := 0 in
     comment <- string_loop BUFSIZ uint32 fd (Z.to_nat BUFSIZ) c len comment ;;
     comment <- store_at comment (BUFSIZ - 1) x00 ;;
     s <- load_string comment ;;
     printf (Comment s)).

(** Lines 151-160: the header checksum. *)
Definition main_hcrc (fd : Z) (header : gzip_header) : M unit :=
  when (flag_set header FHCRC)
    (let header_crc := uninit 2 in
     r <- read fd header_crc 2 ;;
     let bytes_read := uint32 r.1 in
     if bytes_read <? 2
     then printf TooFewHcrc ;; close fd ;; exit (-1)
     else bs <- load r.2 ;; printf (HeaderChecksum (le_decode bs))).

(** Lines 166-188: the trailer, and the end of [main]. *)
Definition main_trailer (fd : Z) : M unit :=
  pos <- lseek fd (-8) SEEK_END ;;
  if pos =? -1
  then printf SeekError ;; close fd ;; exit (-1)
  else
    r <- read fd (uninit 4) 4 ;;
    let bytes_read := uint32 r.1 in
    if bytes_read <? 4
    then printf TooFewChecksum ;; close fd ;; exit (-1)
    else
      checksum <- load r.2 ;;
      printf (Checksum (le_decode checksum)) ;;
      r <- read fd (uninit 4) 4 ;;
      let bytes_read := uint32 r.1 in
      if bytes_read <? 4
      then printf TooFewIsize ;; close fd ;; exit (-1)
      else
        isize <- load r.2 ;;
        printf (Isize (le_decode isize)) ;;
        close fd ;;
        ret tt.

(** Lines 99-160: the optional fields, in the order of the source. *)
Definition main_optional (fd : Z) (header : gzip_header) : M unit :=
  main_extra fd header ;;
  main_filename fd header ;;
  main_comment fd header ;;
  main_hcrc fd header.

(** Lines 62-160: everything [main] does before it turns to the trailer. *)
Definition main_head (fd : Z) : M unit :=
  header <- main_header fd ;;
  main_magic header ;;
  main_method header ;;
  main_report header ;;
  main_optional fd header.

Definition main (argc : Z) : M unit :=
  if negb (argc =? 2)
  then printf PleaseProvideFilename ;; exit (-1)
  else
    fd <- open ;;
    main_head fd ;;
    main_trailer fd.

End Program.

(** ** Reading the outcome of a run *)

(** The three ways the parse can fail. *)
Inductive error := InvalidMagic | TruncatedInput | SeekOutOfRange.

Definition error_of (e : event) : option error :=
  match e with
  | InvalidGzip => Some InvalidMagic
  | TooFewBytes | TooFewExtra | TooFewFilename | TooFewHcrc
  | TooFewChecksum | TooFewIsize => Some TruncatedInput
  | SeekError => Some SeekOutOfRange
  | _ => None
  end.

(** The failure a finished run reports: the error named by the last line
    printed before [main] returned a non-zero status. *)
Definition failure (run : result unit * world) : option error :=
  match run.1 with
  | Exit _ => last (stdout run.2) ≫= error_of
  | _ => None
  end.

(** The events that say something about the compression method. *)
Definition reports_method (e : event) : bool :=
  match e with
  | Deflate => true
  | _ => false
  end.

(** The optional field an event reports, if it reports one. *)
Definition field_of_event (e : event) : option flag_name :=
  match e with
  | ExtraField _ => Some FEXTRA
  | Filename _ => Some FNAME
  | Comment _ => Some FCOMMENT
  | HeaderChecksum _ => Some FHCRC
  | _ => None
  end.

(** The optional fields in the order of RFC 1952. *)
Definition optional_fields : list flag_name := [FEXTRA; FNAME; FCOMMENT; FHCRC].

(** The descriptor is open on the file [f]. *)
Definition opened (f : list byte) (w : world) : Prop :=
  disk w = Some f /\ fd_open w = true /\ 0 <= offset w.

(** The bytes of [f] from the file offset on. *)
Definition ahead (f : list byte) (w : world) : list byte :=
  drop (Z.to_nat (offset w)) f.

(** [INT_MAX], the largest value an [int] constant such as [BUFSIZ] has. *)
Definition INT_MAX : Z := 2 ^ 31 - 1.

(** ** Reference descriptions used in the statements *)

(** [buf] with the bytes [bs] written from index [pos] on. *)
Definition write (buf : cells) (pos : nat) (bs : list byte) : cells :=
  take pos buf ++ (Some <$> bs) ++ drop (pos + length bs) buf.

(** Reading a zero-terminated string in the words of the specification:
    bytes are taken one at a time until a zero byte has been taken or [n]
    bytes have been taken.  The result is the bytes taken; [None] when the
    stream ends first. *)
Fixpoint scan (n : nat) (s : list byte) : option (list byte) :=
  match n with
  | O => Some []
  | S n' =>
      match s with
      | [] => None
      | b :: s' =>
          if byte_val b =? 0 then Some [b]
          else match scan n' s' with
               | Some bs => Some (b :: bs)
               | None => None
               end
      end
  end.

(** What lines 113-130 and 134-148 have in common: the loop over a fresh
    array of [size] bytes, the zero stored in its last byte, and the line
    that prints the string. *)
Definition string_block (size : Z) (wrap : Z -> Z) (fd : Z)
    (line : list byte -> event) : M unit :=
  buf <- string_loop size wrap fd (Z.to_nat size) (uninit 1) 0 (uninit size) ;;
  buf <- store_at buf (size - 1) x00 ;;
  s <- load_string buf ;;
  printf (line s).

(** A block that, when it runs to its end, leaves the descriptor open on
    the same file. *)
Definition keeps {A} (f : list byte) (m : M A) : Prop :=
  forall w a w', opened f w -> m w = (Val a, w') -> opened f w'.

(** What a stretch of parsing comes to, told from the file alone: the
    lines it prints and the file offset it ends at. *)
Inductive parsed :=
  | Parsed (lines : list event) (pos : Z)        (* every field was there *)
  | Truncated (lines : list event) (pos : Z)     (* the stream ended inside a field;
                                                    the last line says so *)
  | Unspecified (lines : list event) (pos : Z).  (* C does not say how it goes on *)

Definition prepend (evs : list event) (p : parsed) : parsed :=
  match p with
  | Parsed l pos => Parsed (evs ++ l) pos
  | Truncated l pos => Truncated (evs ++ l) pos
  | Unspecified l pos => Unspecified (evs ++ l) pos
  end.

(** No field. *)
Definition skip_spec : Z -> parsed := fun pos => Parsed [] pos.

(** One stretch after another: the second starts where the first ends,
    if the first gets to its end. *)
Definition then_spec (s1 s2 : Z -> parsed) : Z -> parsed :=
  fun pos =>
    match s1 pos with
    | Parsed l pos' => prepend l (s2 pos')
    | stop => stop
    end.

(** The bytes before the first zero byte. *)
Fixpoint until_zero (bs : list byte) : list byte :=
  match bs with
  | [] => []
  | b :: bs' => if byte_val b =? 0 then [] else b :: until_zero bs'
  end.

(** A zero-terminated string of at most [size] bytes at offset [pos] of
    the file [f], in the words of the specification: bytes are taken until
    a zero byte or [size] bytes have been taken; the text is what was
    taken without the terminator, cut to [size - 1] bytes; a stream that
    ends first is truncated input. *)
Definition string_field (size : Z) (line : list byte -> event)
    (f : list byte) (pos : Z) : parsed :=
  let s := drop (Z.to_nat pos) f in
  match scan (Z.to_nat size) s with
  | Some bs =>
      Parsed [line (until_zero (take (Z.to_nat size - 1) bs))]
        (pos + Z.of_nat (length bs))
  | None => Truncated [TooFewFilename] (pos + Z.of_nat (length s))
  end.

(** One optional field at offset [pos] of the file [f], in the words of
    the specification.  The extra field is the next [xlen] bytes; the file
    name starts two bytes back when there is no extra field; the header
    checksum is the next two bytes, little-endian.  An extra field of no
    bytes is where the program leaves defined behaviour. *)
Definition field_spec (BUFSIZ : Z) (header : gzip_header) (fl : flag_name)
    (f : list byte) (pos : Z) : parsed :=
  let s := drop (Z.to_nat pos) f in
  match fl with
  | FTEXT => Parsed [] pos
  | FEXTRA =>
      if xlen header =? 0 then Unspecified [] pos
      else if Z.of_nat (length s) <? xlen header
      then Truncated [TooFewExtra] (pos + Z.of_nat (length s))
      else Parsed [ExtraField (take (Z.to_nat (xlen header)) s)] (pos + xlen header)
  | FNAME =>
      string_field 128 Filename f (if flag_set header FEXTRA then pos else pos - 2)
  | FCOMMENT => string_field BUFSIZ Comment f pos
  | FHCRC =>
      if Z.of_nat (length s) <? 2
      then Truncated [TooFewHcrc] (pos + Z.of_nat (length s))
      else Parsed [HeaderChecksum (le_decode (take 2 s))] (pos + 2)
  end.

(** The fields [fields], one after the other. *)
Fixpoint fields_spec (BUFSIZ : Z) (header : gzip_header)
    (fields : list flag_name) (f : list byte) : Z -> parsed :=
  match fields with
  | [] => skip_spec
  | fl :: rest =>
      then_spec (field_spec BUFSIZ header fl f) (fields_spec BUFSIZ header rest f)
  end.

(** The description of the block of a field: that of the field when its
    flag is set, and nothing otherwise. *)
Definition block_spec (BUFSIZ : Z) (header : gzip_header) (f : list byte)
    (fl : flag_name) : Z -> parsed :=
  if flag_set header fl then field_spec BUFSIZ header fl f else skip_spec.

(** The result of a block and the world it leaves, for what [parsed]
    says, on the file [f] with [out] printed before: the descriptor is
    closed on the way out of [main] after truncated input, and open
    otherwise. *)
Definition outcome (f : list byte) (out : list event) (p : parsed) :
    result unit * world :=
  match p with
  | Parsed l pos => (Val tt, World (Some f) true pos (out ++ l))
  | Truncated l pos => (Exit (-1), World (Some f) false pos (out ++ l))
  | Unspecified l pos => (Undefined, World (Some f) true pos (out ++ l))
  end.

(** The block [m] does what [spec] says wherever the descriptor is open on
    [f] at an offset of [lo] or more. *)
Definition refines (f : list byte) (lo : Z) (m : M unit) (spec : Z -> parsed) : Prop :=
  forall w,
    opened f w -> lo <= offset w ->
    m w = outcome f (stdout w) (spec (offset w)).

(** The five flags that have a name, in the order [main] tests them. *)
Definition named_flags : list flag_name := [FTEXT; FHCRC; FEXTRA; FNAME; FCOMMENT].

(** The lines of lines 77-97 for a header. *)
Definition report_lines (header : gzip_header) : list event :=
  (if flag header =? 0 then []
   else FlagsSet :: map FlagName (List.filter (flag_set header) named_flags)
          ++ [FlagsEnd]) ++
  (if mtime header =? 0 then [] else [CreationTime (mtime header)]) ++
  [Xfl (xfl header); Os (os header =? 0x3)].

(** [w] with the lines [evs] printed after what it has. *)
Definition emit_all (evs : list event) (w : world) : world :=
  {| disk := disk w; fd_open := fd_open w; offset := offset w;
     stdout := stdout w ++ evs |}.

(** Two worlds that differ in the file only: [f1] in one, [f2] in the
    other, the same descriptor state, offset and output. *)
Definition twin (f1 f2 : list byte) (w1 w2 : world) : Prop :=
  disk w1 = Some f1 /\ disk w2 = Some f2 /\
  fd_open w1 = fd_open w2 /\ offset w1 = offset w2 /\ stdout w1 = stdout w2.

(** A block that looks at no byte of the file beyond the first [k]
    provided it starts at most [c] bytes before that limit: on twin worlds
    it ends the same way, in twin worlds, and it moves the offset forward
    by [c] at most. *)
Definition local {A} (f1 f2 : list byte) (k c : Z) (m : M A) : Prop :=
  forall w1 w2,
    twin f1 f2 w1 w2 ->
    0 <= offset w1 ->
    offset w1 + c <= k ->
    (m w1).1 = (m w2).1 /\
    twin f1 f2 (m w1).2 (m w2).2 /\
    0 <= offset (m w1).2 <= offset w1 + c.

(** A block that never fails and does nothing but print the lines [evs]. *)
Definition emits (m : M unit) (evs : list event) : Prop :=
  forall w, m w = (Val tt, emit_all evs w).

(** ** Bytes, cells and strings *)

Lemma byte_val_range (b : byte) : 0 <= byte_val b < 256.
Proof.
  unfold byte_val. pose proof (Byte.to_N_bounded b) as Hb. lia.
Qed.

Lemma byte_val_zero (b : byte) : byte_val b = 0 <-> b = x00.
Proof.
  split; [|intros ->; reflexivity].
  unfold byte_val. intros Hz.
  assert (Hn : Byte.to_N b = 0%N) by lia.
  pose proof (Byte.of_to_N b) as Hof. rewrite Hn in Hof.
  simpl in Hof. congruence.
Qed.

Lemma defined_Some (bs : list byte) : defined (Some <$> bs) = Some bs.
Proof.
  induction bs as [|b bs IH]; [reflexivity|].
  rewrite fmap_cons. cbn [defined]. rewrite IH. reflexivity.
Qed.

Lemma overlay_all (bs : list byte) (mem : cells) :
  (length mem <= length bs)%nat -> overlay bs mem = Some <$> bs.
Proof.
  intros Hlen. unfold overlay. rewrite drop_ge by lia. apply app_nil_r.
Qed.

Lemma uint32_small (z : Z) : 0 <= z < 2 ^ 32 -> uint32 z = z.
Proof. intros Hz. unfold uint32, to_uint. apply Z.mod_small. exact Hz. Qed.

Lemma uint32_minus_one : uint32 (-1) = 2 ^ 32 - 1.
Proof. reflexivity. Qed.

(** ** Sequencing *)

Lemma bind_val {A B} (m : M A) (k : A -> M B) (w w' : world) (a : A) :
  m w = (Val a, w') -> bind m k w = k a w'.
Proof. intros Hm. unfold bind. rewrite Hm. reflexivity. Qed.

Lemma bind_exit {A B} (m : M A) (k : A -> M B) (w w' : world) (s : Z) :
  m w = (Exit s, w') -> bind m k w = (Exit s, w').
Proof. intros Hm. unfold bind. rewrite Hm. reflexivity. Qed.

Lemma bind_assoc {A B C} (m : M A) (k1 : A -> M B) (k2 : B -> M C) (w : world) :
  bind (bind m k1) k2 w = bind m (fun a => bind (k1 a) k2) w.
Proof. unfold bind. destruct (m w) as [[a| | |] w']; reflexivity. Qed.

(** ** System calls on an open descriptor *)

Lemma valid_fd_opened f w : opened f w -> valid_fd the_fd w = true.
Proof. intros (_ & Hop & _). unfold valid_fd. rewrite Hop. reflexivity. Qed.

Lemma read_opened f w buf count :
  opened f w ->
  let bs := take (Z.to_nat count) (ahead f w) in
  read the_fd buf count w =
    (Val (Z.of_nat (length bs), overlay bs buf),
     set_offset (offset w + Z.of_nat (length bs)) w).
Proof.
  intros Hw. pose proof (valid_fd_opened _ _ Hw) as Hv.
  destruct Hw as (Hd & _ & _). unfold read, ahead. rewrite Hd, Hv. reflexivity.
Qed.

Lemma opened_set_offset f w pos :
  opened f w -> 0 <= pos -> opened f (set_offset pos w).
Proof. intros (Hd & Hop & _) Hpos. repeat split; simpl; assumption. Qed.

Lemma opened_emit f w e : opened f w -> opened f (emit e w).
Proof. intros (Hd & Hop & Hoff). repeat split; simpl; assumption. Qed.

Lemma close_opened f w :
  opened f w -> close the_fd w = (Val 0, set_open false w).
Proof.
  intros Hw. unfold close. rewrite (valid_fd_opened _ _ Hw). reflexivity.
Qed.

Lemma open_boot (f : list byte) :
  open (boot (Some f)) = (Val the_fd, World (Some f) true 0 []).
Proof. reflexivity. Qed.

Lemma opened_start (f : list byte) : opened f (World (Some f) true 0 []).
Proof. repeat split; simpl; lia. Qed.

(** ** The fixed header *)

(** A file shorter than the structure: the first check of [main] fires. *)
Lemma main_header_short f w :
  opened f w -> offset w = 0 -> (length f < 12)%nat ->
  main_header the_fd w =
    (Exit (-1),
     set_open false (emit TooFewBytes (set_offset (Z.of_nat (length f)) w))).
Proof.
  intros Hw Hoff Hlen. unfold main_header, bind.
  rewrite (read_opened f w _ _ Hw). cbn zeta. unfold ahead. rewrite Hoff.
  change (Z.to_nat 0) with 0%nat. rewrite drop_0.
  change (Z.to_nat sizeof_gzip_header) with 12%nat.
  rewrite take_ge by lia. cbn [fst snd].
  rewrite uint32_small by (change (2 ^ 32) with 4294967296; lia).
  unfold sizeof_gzip_header.
  destruct (Z.ltb_spec (Z.of_nat (length f)) 12) as [_|Hge]; [|lia].
  unfold printf. rewrite Z.add_0_l.
  erewrite close_opened; [reflexivity|].
  apply opened_emit, opened_set_offset; [exact Hw | lia].
Qed.

(** Twelve bytes or more: the structure is filled from the first twelve. *)
Lemma main_header_full f w :
  opened f w -> offset w = 0 -> (12 <= length f)%nat ->
  main_header the_fd w = (Val (header_of_bytes (take 12 f)), set_offset 12 w).
Proof.
  intros Hw Hoff Hlen. unfold main_header, bind.
  rewrite (read_opened f w _ _ Hw). cbn zeta. unfold ahead. rewrite Hoff.
  change (Z.to_nat 0) with 0%nat. rewrite drop_0.
  change (Z.to_nat sizeof_gzip_header) with 12%nat.
  assert (Hl : length (take 12 f) = 12%nat) by (rewrite length_take; lia).
  rewrite Hl. cbn [fst snd].
  rewrite overlay_all by (rewrite length_replicate; lia).
  unfold load. rewrite defined_Some. reflexivity.
Qed.

Lemma byte_val_inj (a b : byte) : byte_val a = byte_val b -> a = b.
Proof.
  unfold byte_val. intros Hab.
  assert (Hn : Byte.to_N a = Byte.to_N b) by lia.
  pose proof (Byte.of_to_N a) as Ha. rewrite Hn, Byte.of_to_N in Ha.
  congruence.
Qed.

(** What [main] does with a file, from the first line to the last. *)
Lemma main_short (BUFSIZ : Z) (f : list byte) :
  (length f < 12)%nat ->
  main BUFSIZ 2 (boot (Some f)) =
    (Exit (-1), World (Some f) false (Z.of_nat (length f)) [TooFewBytes]).
Proof.
  intros Hlen. unfold main, main_head, bind. cbn [Z.eqb Pos.eqb negb].
  rewrite open_boot.
  rewrite (main_header_short f) by (auto using opened_start).
  reflexivity.
Qed.

Lemma main_long (BUFSIZ : Z) (f : list byte) :
  (12 <= length f)%nat ->
  let header := header_of_bytes (take 12 f) in
  main BUFSIZ 2 (boot (Some f)) =
    ((main_magic header ;;
      main_method header ;;
      main_report header ;;
      main_optional BUFSIZ the_fd header) ;;
     main_trailer the_fd) (World (Some f) true 12 []).
Proof.
  intros Hlen header. unfold main, main_head. cbn [Z.eqb Pos.eqb negb].
  unfold bind at 1. rewrite open_boot.
  unfold bind at 1 2.
  rewrite (main_header_full f) by (auto using opened_start).
  reflexivity.
Qed.

(** The magic bytes of a file of twelve bytes or more. *)
Lemma magic_of_file (f : list byte) :
  (12 <= length f)%nat ->
  let header := header_of_bytes (take 12 f) in
  (id1 header =? 0x1f) && (id2 header =? 0x8b) = true <->
  take 2 f = [x1f; x8b].
Proof.
  intros Hlen header. subst header.
  destruct f as [|b0 [|b1 f]]; [simpl in Hlen; lia..|].
  cbn [take header_of_bytes id1 id2 field drop le_decode].
  rewrite !Z.mul_0_r, !Z.add_0_r.
  rewrite andb_true_iff, !Z.eqb_eq.
  change 0x1f with (byte_val x1f). change 0x8b with (byte_val x8b).
  split.
  - intros [H0 H1]. apply byte_val_inj in H0, H1. subst. reflexivity.
  - rewrite take_0. intros Heq. injection Heq as -> ->. split; reflexivity.
Qed.

(** ** Wrong magic bytes *)

(** C3 (as amended): for every file of at least twelve bytes, the size of
    the fixed header read, whose first two bytes are not 0x1f, 0x8b, the
    parse fails with InvalidMagic; "invalid gzip file" is the only line
    printed, so no optional field and no trailer is parsed, and the file
    offset stays at 12, just past the bytes already read. *)
Theorem invalid_magic_stops_parse (BUFSIZ : Z) (f : list byte) :
  (12 <= length f)%nat ->
  take 2 f <> [x1f; x8b] ->
  main BUFSIZ 2 (boot (Some f)) =
    (Exit (-1), World (Some f) true 12 [InvalidGzip]) /\
  failure (main BUFSIZ 2 (boot (Some f))) = Some InvalidMagic.
Proof.
  intros Hlen Hmagic.
  assert (Hrun : main BUFSIZ 2 (boot (Some f)) =
                 (Exit (-1), World (Some f) true 12 [InvalidGzip])).
  { rewrite main_long by exact Hlen. cbn zeta.
    unfold bind at 1 2. unfold main_magic.
    destruct ((id1 (header_of_bytes (take 12 f)) =? 0x1f) &&
              (id2 (header_of_bytes (take 12 f)) =? 0x8b)) eqn:Hcheck.
    - apply (magic_of_file f Hlen) in Hcheck. contradiction.
    - reflexivity. }
  split; [exact Hrun|]. rewrite Hrun. reflexivity.
Qed.

Lemma invalid_magic_stops_parse_witness :
  let f := replicate 12 x00 in
  main 8192 2 (boot (Some f)) =
    (Exit (-1), World (Some f) true 12 [InvalidGzip]) /\
  failure (main 8192 2 (boot (Some f))) = Some InvalidMagic.
Proof.
  apply (invalid_magic_stops_parse 8192 (replicate 12 x00)).
  - simpl. lia.
  - discriminate.
Defined.

(** C3 as stated fails on a short file: five bytes that do not start with
    the magic bytes are reported as truncated input, not as invalid magic. *)
Lemma invalid_magic_short_file :
  let f := [x00; x00; x00; x00; x00] in
  take 2 f <> [x1f; x8b] /\
  failure (main 8192 2 (boot (Some f))) = Some TruncatedInput /\
  failure (main 8192 2 (boot (Some f))) <> Some InvalidMagic.
Proof.
  cbv zeta. split; [discriminate|].
  rewrite main_short by (simpl; lia).
  split; [reflexivity | discriminate].
Qed.

(** ** Short files *)

(** C5 (as amended): a file of exactly seven bytes fails with
    TruncatedInput at the read of the fixed header, which asks for twelve
    bytes; "read too few bytes!" is the only line printed and the trailer
    seek is not reached. *)
Theorem seven_bytes_truncated (BUFSIZ : Z) (f : list byte) :
  length f = 7%nat ->
  main BUFSIZ 2 (boot (Some f)) =
    (Exit (-1), World (Some f) false 7 [TooFewBytes]) /\
  failure (main BUFSIZ 2 (boot (Some f))) = Some TruncatedInput.
Proof.
  intros Hlen.
  rewrite main_short by lia. rewrite Hlen.
  split; reflexivity.
Qed.

Lemma seven_bytes_truncated_witness :
  let f := [x1f; x8b; x08; x00; x00; x00; x00] in
  main 8192 2 (boot (Some f)) =
    (Exit (-1), World (Some f) false 7 [TooFewBytes]) /\
  failure (main 8192 2 (boot (Some f))) = Some TruncatedInput.
Proof.
  apply (seven_bytes_truncated 8192 [x1f; x8b; x08; x00; x00; x00; x00]).
  reflexivity.
Defined.

(** C5 as stated fails: a seven-byte file does not end in SeekOutOfRange,
    and the message of the trailer seek is not printed. *)
Lemma seven_bytes_not_seek_error :
  let f := [x1f; x8b; x08; x00; x00; x00; x00] in
  length f = 7%nat /\
  failure (main 8192 2 (boot (Some f))) <> Some SeekOutOfRange /\
  SeekError ∉ stdout (main 8192 2 (boot (Some f))).2.
Proof.
  cbv zeta. split; [reflexivity|].
  rewrite main_short by (simpl; lia).
  split; [discriminate|].
  cbn. intros Hin. apply list_elem_of_singleton in Hin. discriminate.
Qed.

(** ** Releasing the descriptor *)

(** C8 fails on the invalid-magic path: for twelve zero bytes [main] prints
    "invalid gzip file" and returns -1 with the descriptor still open. *)
Theorem invalid_magic_leaves_descriptor_open :
  let f := replicate 12 x00 in
  main 8192 2 (boot (Some f)) =
    (Exit (-1), World (Some f) true 12 [InvalidGzip]) /\
  fd_open (main 8192 2 (boot (Some f))).2 = true.
Proof.
  cbv zeta. split; reflexivity.
Qed.

(** ** A failing first read *)

(** C9: when the first [read] returns -1, [bytes_read] holds 2^32-1, the
    comparison with [sizeof(struct gzip_header)] is false, and the header
    block goes on with the zeroed structure: nothing is printed and
    [main] does not return there.  A count from 0 to 12 is caught by the
    comparison exactly when it is below 12. *)
Theorem read_error_passes_length_check (fd : Z) (w w' : world) (buf : cells) :
  read fd (replicate 12 (Some x00)) sizeof_gzip_header w = (Val (-1, buf), w') ->
  uint32 (-1) = 2 ^ 32 - 1 /\
  (uint32 (-1) <? sizeof_gzip_header) = false /\
  main_header fd w = (Val (header_of_bytes (replicate 12 x00)), w) /\
  w' = w /\
  (forall n, 0 <= n <= 12 ->
     (uint32 n <? sizeof_gzip_header) = true <-> n < 12).
Proof.
  intros Hread.
  assert (Hsame : buf = replicate 12 (Some x00) /\ w' = w).
  { unfold read in Hread.
    destruct (disk w) as [data|]; [destruct (valid_fd fd w)|];
      try (injection Hread as <- <-; split; reflexivity).
    injection Hread as Hlen _ _. lia. }
  destruct Hsame as [-> ->].
  split; [reflexivity|]. split; [reflexivity|].
  split; [|split; [reflexivity|]].
  - unfold main_header, bind.
    change (Z.to_nat sizeof_gzip_header) with 12%nat.
    rewrite Hread. reflexivity.
  - intros n Hn. rewrite uint32_small by (change (2 ^ 32) with 4294967296; lia).
    unfold sizeof_gzip_header. apply Z.ltb_lt.
Qed.

Lemma read_error_passes_length_check_witness :
  uint32 (-1) = 2 ^ 32 - 1 /\
  (uint32 (-1) <? sizeof_gzip_header) = false /\
  main_header (-1) (boot None) =
    (Val (header_of_bytes (replicate 12 x00)), boot None) /\
  boot None = boot None /\
  (forall n, 0 <= n <= 12 ->
     (uint32 n <? sizeof_gzip_header) = true <-> n < 12).
Proof.
  apply (read_error_passes_length_check (-1) (boot None) (boot None)
           (replicate 12 (Some x00))).
  reflexivity.
Defined.

(** With a file that cannot be opened the run ends at the magic check. *)
Lemma main_unopenable (BUFSIZ : Z) :
  main BUFSIZ 2 (boot None) = (Exit (-1), World None false 0 [InvalidGzip]).
Proof. reflexivity. Qed.

(** ** The compression method *)

Lemma method_of_file (f : list byte) :
  (12 <= length f)%nat ->
  (cm (header_of_bytes (take 12 f)) =? 0x8) = true <-> f !! 2%nat = Some x08.
Proof.
  intros Hlen.
  destruct f as [|b0 [|b1 [|b2 f]]]; [simpl in Hlen; lia..|].
  cbn [take header_of_bytes cm field drop le_decode lookup list_lookup].
  rewrite take_0. cbn [le_decode]. rewrite Z.mul_0_r, Z.add_0_r, Z.eqb_eq.
  change 0x8 with (byte_val x08).
  split.
  - intros Hb. apply byte_val_inj in Hb. congruence.
  - intros [= ->]. reflexivity.
Qed.

(** C7 (as amended): for every file of twelve bytes or more that starts
    with the magic bytes and whose compression method byte is not 0x08,
    line 76 prints nothing and changes nothing, and it is no error: after
    "valid gzip file" the run goes on with the flags, the optional fields
    and the trailer.  Only 0x08 gets the line that names "deflate". *)
Theorem method_mismatch_is_silent (BUFSIZ : Z) (f : list byte) :
  (12 <= length f)%nat ->
  take 2 f = [x1f; x8b] ->
  f !! 2%nat <> Some x08 ->
  let header := header_of_bytes (take 12 f) in
  (forall w, main_method header w = (Val tt, w)) /\
  main BUFSIZ 2 (boot (Some f)) =
    ((main_report header ;; main_optional BUFSIZ the_fd header) ;;
     main_trailer the_fd) (World (Some f) true 12 [ValidGzip]).
Proof.
  intros Hlen Hmagic Hcm header.
  assert (Hmethod : forall w, main_method header w = (Val tt, w)).
  { intros w. unfold main_method.
    destruct (cm header =? 0x8) eqn:Hc; [|reflexivity].
    apply (method_of_file f Hlen) in Hc. contradiction. }
  split; [exact Hmethod|].
  rewrite main_long by exact Hlen. fold header.
  apply (magic_of_file f Hlen) in Hmagic. fold header in Hmagic.
  repeat rewrite bind_assoc.
  rewrite (bind_val (main_magic header) _ _ (World (Some f) true 12 [ValidGzip]) tt)
    by (unfold main_magic; rewrite Hmagic; reflexivity).
  cbv beta. repeat rewrite bind_assoc.
  rewrite (bind_val (main_method header) _ _ _ tt (Hmethod _)).
  cbv beta. repeat rewrite bind_assoc. reflexivity.
Qed.

Lemma method_mismatch_is_silent_witness :
  let f := [x1f; x8b; x00; x00; x00; x00; x00; x00; x00; x03; x00; x00;
            xde; xad; xbe; xef; x0a; x00; x00; x00] in
  let header := header_of_bytes (take 12 f) in
  (forall w, main_method header w = (Val tt, w)) /\
  main 8192 2 (boot (Some f)) =
    ((main_report header ;; main_optional 8192 the_fd header) ;;
     main_trailer the_fd) (World (Some f) true 12 [ValidGzip]).
Proof.
  apply (method_mismatch_is_silent 8192
           [x1f; x8b; x00; x00; x00; x00; x00; x00; x00; x03; x00; x00;
            xde; xad; xbe; xef; x0a; x00; x00; x00]).
  - simpl. lia.
  - reflexivity.
  - discriminate.
Defined.

(** The line of the method is printed for 0x08. *)
Lemma method_deflate (header : gzip_header) (w : world) :
  cm header = 8 -> main_method header w = (Val tt, emit Deflate w).
Proof. intros Hc. unfold main_method. rewrite Hc. reflexivity. Qed.

(** C7 as stated fails: a file with compression method 0 is parsed to the
    end, and no line of the output says anything about the method. *)
Lemma method_mismatch_not_reported :
  let f := [x1f; x8b; x00; x00; x00; x00; x00; x00; x00; x03; x00; x00;
            xde; xad; xbe; xef; x0a; x00; x00; x00] in
  f !! 2%nat <> Some x08 /\
  main 8192 2 (boot (Some f)) =
    (Val tt,
     World (Some f) false 20
       [ValidGzip; Xfl 0; Os true; Checksum 4022250974; Isize 10]) /\
  existsb reports_method (stdout (main 8192 2 (boot (Some f))).2) = false.
Proof.
  cbv zeta. split; [discriminate|]. split; reflexivity.
Qed.

(** ** The retreat over the bytes read as [xlen] *)

(** C1 fails when the first field present is not the file name.  With only
    FCOMMENT set and the comment "test" at offset 10, the comment is read
    from offset 12 and comes out as "st"; with only FHCRC set and the
    checksum bytes aa bb at offset 10, the two bytes at offset 12 are
    printed instead. *)
Theorem no_retreat_without_filename :
  let comment_only :=
    [x1f; x8b; x08; x10; x00; x00; x00; x00; x00; x03;
     x74; x65; x73; x74; x00;
     xde; xad; xbe; xef; x0a; x00; x00; x00] in
  let hcrc_only :=
    [x1f; x8b; x08; x02; x00; x00; x00; x00; x00; x03;
     xaa; xbb;
     xde; xad; xbe; xef; x0a; x00; x00; x00] in
  stdout (main 8192 2 (boot (Some comment_only))).2 =
    [ValidGzip; Deflate; FlagsSet; FlagName FCOMMENT; FlagsEnd; Xfl 0;
     Os true; Comment [x73; x74]; Checksum 4022250974; Isize 10] /\
  stdout (main 8192 2 (boot (Some hcrc_only))).2 =
    [ValidGzip; Deflate; FlagsSet; FlagName FHCRC; FlagsEnd; Xfl 0;
     Os true; HeaderChecksum 0xadde; Checksum 4022250974; Isize 10].
Proof.
  cbv zeta. split; vm_compute; reflexivity.
Qed.

(** ** The string loops *)

Lemma insert_write (buf : cells) (pos : nat) (b : byte) (bs : list byte) :
  (pos < length buf)%nat ->
  write (<[pos := Some b]> buf) (S pos) bs = write buf pos (b :: bs).
Proof.
  revert buf. induction pos as [|pos IH]; intros [|x buf] Hpos;
    try (cbn [length] in Hpos; lia).
  - reflexivity.
  - unfold write in *. cbn [take insert list_insert app drop Nat.add length].
    cbn [length] in Hpos. rewrite IH by lia. reflexivity.
Qed.

Lemma write_one (buf : cells) (pos : nat) (b : byte) :
  (pos < length buf)%nat -> write buf pos [b] = <[pos := Some b]> buf.
Proof.
  intros Hpos. unfold write. rewrite insert_take_drop by exact Hpos.
  replace (pos + length [b])%nat with (S pos) by (cbn [length]; lia).
  reflexivity.
Qed.

Lemma ahead_next f w b s :
  0 <= offset w -> ahead f w = b :: s ->
  ahead f (set_offset (offset w + 1) w) = s.
Proof.
  unfold ahead. cbn [offset set_offset]. intros Hoff Hs.
  replace (Z.to_nat (offset w + 1)) with (Z.to_nat (offset w) + 1)%nat by lia.
  rewrite <- drop_drop, Hs. reflexivity.
Qed.

Lemma too_few_exit {A} f w e :
  opened f w ->
  (printf e ;; close the_fd ;; exit (-1)) w =
    (Exit (-1) : result A, set_open false (emit e w)).
Proof.
  intros Hw. unfold printf, bind.
  rewrite (close_opened f) by (apply opened_emit; exact Hw). reflexivity.
Qed.

Lemma scan_cons (n : nat) (b : byte) (s : list byte) :
  scan (S n) (b :: s) =
    if byte_val b =? 0 then Some [b]
    else match scan n s with
         | Some bs => Some (b :: bs)
         | None => None
         end.
Proof. reflexivity. Qed.

Section Loop.

Variables (size : Z) (wrap : Z -> Z) (f : list byte).
Hypothesis wrap_id : forall i, 0 <= i <= size -> wrap i = i.

(** One turn of the loop. *)
Lemma string_loop_step (fuel : nat) (len : Z) (c buf : cells) (w : world) :
  opened f w ->
  length c = 1%nat ->
  0 <= len < Z.of_nat (length buf) ->
  string_loop size wrap the_fd (S fuel) c len buf w =
    match ahead f w with
    | [] =>
        (Exit (-1), set_open false (emit TooFewFilename (set_offset (offset w + 0) w)))
    | b :: _ =>
        let buf' := <[Z.to_nat len := Some b]> buf in
        let w' := set_offset (offset w + 1) w in
        if negb (byte_val b =? 0) && (wrap (len + 1) <? size)
        then string_loop size wrap the_fd fuel [Some b] (wrap (len + 1)) buf' w'
        else (Val buf', w')
    end.
Proof.
  intros Hw Hc Hlen. cbn [string_loop]. unfold bind at 1.
  rewrite (read_opened f w c 1 Hw). cbn zeta.
  change (Z.to_nat 1) with 1%nat.
  destruct (ahead f w) as [|b s].
  - cbn [take length fst snd].
    change (uint32 (Z.of_nat 0) <? 1) with true. cbv iota.
    apply (too_few_exit f).
    apply opened_set_offset; [exact Hw | destruct Hw as (_ & _ & ?); lia].
  - change (take 1 (b :: s)) with [b]. cbn [length fst snd].
    change (uint32 (Z.of_nat 1) <? 1) with false. cbv iota.
    destruct c as [|c0 [|c1 c]]; try discriminate Hc.
    unfold overlay. cbn [fmap list_fmap length drop app].
    unfold bind at 1. cbn [load_char ret].
    unfold bind at 1, store_at, store.
    destruct (Z.leb_spec 0 len) as [_|?]; [|lia].
    destruct (Z.ltb_spec len (Z.of_nat (length buf))) as [_|?]; [|lia].
    cbn [andb ret].
    destruct (negb (byte_val b =? 0) && (wrap (len + 1) <? size)); reflexivity.
Qed.

(** The loop does what [scan] says, cell by cell: it returns with the
    bytes taken written into the array, or it finds the stream at its end
    and leaves [main]. *)
Lemma string_loop_scan (n : nat) :
  forall (len : Z) (c buf : cells) (w : world),
    opened f w ->
    length c = 1%nat ->
    0 <= len ->
    len + Z.of_nat (S n) = size ->
    (size <= Z.of_nat (length buf)) ->
    string_loop size wrap the_fd (S n) c len buf w =
      match scan (S n) (ahead f w) with
      | Some bs =>
          (Val (write buf (Z.to_nat len) bs),
           set_offset (offset w + Z.of_nat (length bs)) w)
      | None =>
          (Exit (-1),
           set_open false
             (emit TooFewFilename
                (set_offset (offset w + Z.of_nat (length (ahead f w))) w)))
      end.
Proof.
  induction n as [|n IH]; intros len c buf w Hw Hc Hlen Hsize Hbuf.
  all: rewrite (string_loop_step _ _ _ _ _ Hw Hc) by lia.
  all: destruct (ahead f w) as [|b s] eqn:Hs; [reflexivity|].
  all: cbn zeta; rewrite wrap_id by lia.
  - (* the last cell of the array *)
    destruct (Z.ltb_spec (len + 1) size) as [?|_]; [lia|].
    rewrite andb_false_r, scan_cons. cbn [scan].
    destruct (byte_val b =? 0); cbn [length];
      rewrite write_one by lia; reflexivity.
  - rewrite scan_cons.
    destruct (byte_val b =? 0) eqn:Hb; cbn [negb andb].
    + rewrite write_one by lia. reflexivity.
    + destruct (Z.ltb_spec (len + 1) size) as [_|?]; [|lia].
      assert (Hoff : 0 <= offset w) by (destruct Hw as (_ & _ & ?); assumption).
      assert (Hw1 : opened f (set_offset (offset w + 1) w))
        by (apply opened_set_offset; [exact Hw | lia]).
      rewrite (IH (len + 1) [Some b] _ _ Hw1) by
        (rewrite ?length_insert; first [reflexivity | lia]).
      rewrite (ahead_next f w b s Hoff Hs).
      destruct (scan (S n) s) as [bs|].
      * replace (Z.to_nat (len + 1)) with (S (Z.to_nat len)) by lia.
        rewrite insert_write by lia.
        unfold set_offset. cbn [disk fd_open stdout offset length].
        f_equal. f_equal. lia.
      * unfold set_open, emit, set_offset.
        cbn [disk fd_open stdout offset length]. f_equal. f_equal. lia.
Qed.

End Loop.

(** ** What [scan] gives *)

Lemma nonzero_byte (b : byte) : b <> x00 -> (byte_val b =? 0) = false.
Proof.
  intros Hb. apply Z.eqb_neq. intros Hz. apply byte_val_zero in Hz. contradiction.
Qed.

Lemma scan_terminated (t rest : list byte) :
  forall n, x00 ∉ t -> (length t < n)%nat ->
  scan n (t ++ x00 :: rest) = Some (t ++ [x00]).
Proof.
  induction t as [|b t IH]; intros [|n] Ht Hn; cbn [length] in Hn; try lia.
  - reflexivity.
  - apply not_elem_of_cons in Ht as [Hb Ht].
    cbn [app]. rewrite scan_cons, (nonzero_byte b) by congruence.
    rewrite IH by (first [assumption | lia]). reflexivity.
Qed.

Lemma scan_full (t rest : list byte) :
  forall n, x00 ∉ t -> length t = n -> scan n (t ++ rest) = Some t.
Proof.
  induction t as [|b t IH]; intros [|n] Ht Hn; cbn [length] in Hn; try lia.
  - reflexivity.
  - apply not_elem_of_cons in Ht as [Hb Ht].
    cbn [app]. rewrite scan_cons, (nonzero_byte b) by congruence.
    rewrite IH by (first [assumption | lia]). reflexivity.
Qed.

Lemma scan_short (s : list byte) :
  forall n, x00 ∉ s -> (length s < n)%nat -> scan n s = None.
Proof.
  induction s as [|b s IH]; intros [|n] Hs Hn; cbn [length] in Hn; try lia.
  - reflexivity.
  - apply not_elem_of_cons in Hs as [Hb Hs].
    rewrite scan_cons, (nonzero_byte b) by congruence.
    rewrite IH by (first [assumption | lia]). reflexivity.
Qed.

(** ** The string in the array *)

Lemma c_string_terminated (t : list byte) (rest : cells) :
  x00 ∉ t -> c_string ((Some <$> t) ++ Some x00 :: rest) = Some t.
Proof.
  induction t as [|b t IH]; intros Ht.
  - reflexivity.
  - apply not_elem_of_cons in Ht as [Hb Ht].
    rewrite fmap_cons. cbn [app c_string].
    rewrite (nonzero_byte b) by congruence. rewrite IH by assumption.
    reflexivity.
Qed.

Lemma length_write (buf : cells) (pos : nat) (bs : list byte) :
  (pos + length bs <= length buf)%nat -> length (write buf pos bs) = length buf.
Proof.
  intros Hlen. unfold write.
  rewrite !length_app, length_take, length_fmap, length_drop. lia.
Qed.

Lemma length_uninit (size : Z) : length (uninit size) = Z.to_nat size.
Proof. apply length_replicate. Qed.

(** A terminator stored by the loop stays the first zero byte of the array
    when the last byte of the array is set to zero. *)
Lemma terminated_array (size : nat) (t : list byte) :
  (length t < size)%nat ->
  exists rest,
    <[(size - 1)%nat := Some x00]> (write (replicate size None) 0 (t ++ [x00])) =
    (Some <$> t) ++ Some x00 :: rest.
Proof.
  intros Hlen. unfold write. rewrite take_0. cbn [app Nat.add].
  rewrite fmap_app, <- app_assoc.
  change (Some <$> [x00]) with [Some x00]. cbn [app].
  rewrite insert_app_r_alt by (rewrite length_fmap; lia).
  rewrite length_fmap.
  destruct (size - 1 - length t)%nat as [|j]; cbn [insert list_insert]; eauto.
Qed.

(** An array filled to its last byte with non-zero bytes loses the last
    one to the terminating store. *)
Lemma full_array (size : nat) (t : list byte) :
  length t = size -> (1 <= size)%nat ->
  <[(size - 1)%nat := Some x00]> (write (replicate size None) 0 t) =
  (Some <$> take (size - 1) t) ++ [Some x00].
Proof.
  intros Hlen Hsize. unfold write. rewrite take_0. cbn [app Nat.add].
  rewrite drop_ge by (rewrite length_replicate; lia). rewrite app_nil_r.
  rewrite insert_take_drop by (rewrite length_fmap; lia).
  rewrite fmap_take.
  rewrite drop_ge by (rewrite length_fmap; lia). reflexivity.
Qed.
(** ** The blocks that read a string *)

Section Block.

Variables (size : Z) (wrap : Z -> Z) (f : list byte) (line : list byte -> event).
Hypothesis size_pos : 1 <= size.
Hypothesis wrap_id : forall i, 0 <= i <= size -> wrap i = i.

Lemma string_loop_start (c : cells) (w : world) :
  opened f w ->
  length c = 1%nat ->
  string_loop size wrap the_fd (Z.to_nat size) c 0 (uninit size) w =
    match scan (Z.to_nat size) (ahead f w) with
    | Some bs =>
        (Val (write (uninit size) 0 bs),
         set_offset (offset w + Z.of_nat (length bs)) w)
    | None =>
        (Exit (-1),
         set_open false
           (emit TooFewFilename
              (set_offset (offset w + Z.of_nat (length (ahead f w))) w)))
    end.
Proof.
  intros Hw Hc.
  replace (Z.to_nat size) with (S (Z.to_nat (size - 1))) by lia.
  apply (string_loop_scan size wrap f wrap_id (Z.to_nat (size - 1)) 0 c);
    try assumption; rewrite ?length_uninit; lia.
Qed.

(** The store of line 129 (147) is inside the array. *)
Lemma store_last (buf : cells) (w : world) :
  length buf = Z.to_nat size ->
  store_at buf (size - 1) x00 w =
    (Val (<[(Z.to_nat size - 1)%nat := Some x00]> buf), w).
Proof.
  intros Hlen. unfold store_at, store.
  destruct (Z.leb_spec 0 (size - 1)) as [_|?]; [|lia].
  destruct (Z.ltb_spec (size - 1) (Z.of_nat (length buf))) as [_|?]; [|lia].
  cbn [andb]. replace (Z.to_nat (size - 1)) with (Z.to_nat size - 1)%nat by lia.
  reflexivity.
Qed.

(** A zero byte comes before the array is full: the string is what stands
    before it, and the stream is consumed up to and including it. *)
Lemma string_block_terminated (w : world) (t rest : list byte) :
  opened f w ->
  ahead f w = t ++ x00 :: rest ->
  x00 ∉ t ->
  Z.of_nat (length t) < size ->
  string_block size wrap the_fd line w =
    (Val tt, emit (line t) (set_offset (offset w + Z.of_nat (length t) + 1) w)).
Proof.
  intros Hw Hs Ht Hlen. unfold string_block.
  pose proof (string_loop_start (uninit 1) w Hw eq_refl) as Hloop.
  rewrite Hs, scan_terminated in Hloop by (first [assumption | lia]).
  rewrite (bind_val _ _ _ _ _ Hloop).
  assert (Hbuf : length (write (uninit size) 0 (t ++ [x00])) = Z.to_nat size)
    by (rewrite length_write; rewrite ?length_uninit, ?length_app; cbn [length]; lia).
  rewrite (bind_val _ _ _ _ _ (store_last _ _ Hbuf)).
  destruct (terminated_array (Z.to_nat size) t) as [tail Htail]; [lia|].
  unfold uninit. rewrite Htail.
  unfold bind, load_string. rewrite c_string_terminated by assumption.
  unfold ret, printf, emit, set_offset. cbn [disk fd_open offset stdout].
  rewrite length_app. cbn [length]. do 2 f_equal. lia.
Qed.

(** No zero byte among as many bytes as the array has: all of them are
    consumed, and the string is all but the last of them. *)
Lemma string_block_full (w : world) (t rest : list byte) :
  opened f w ->
  ahead f w = t ++ rest ->
  x00 ∉ t ->
  Z.of_nat (length t) = size ->
  string_block size wrap the_fd line w =
    (Val tt,
     emit (line (take (Z.to_nat size - 1) t)) (set_offset (offset w + size) w)).
Proof.
  intros Hw Hs Ht Hlen. unfold string_block.
  pose proof (string_loop_start (uninit 1) w Hw eq_refl) as Hloop.
  rewrite Hs, scan_full in Hloop by (first [assumption | lia]).
  rewrite (bind_val _ _ _ _ _ Hloop).
  assert (Hbuf : length (write (uninit size) 0 t) = Z.to_nat size)
    by (rewrite length_write; rewrite ?length_uninit; lia).
  rewrite (bind_val _ _ _ _ _ (store_last _ _ Hbuf)).
  unfold uninit. rewrite full_array by lia.
  unfold bind, load_string.
  rewrite (c_string_terminated _ []) by
    (intros Hin; apply Ht; apply elem_of_take in Hin as (i & Hi & _);
     eapply list_elem_of_lookup_2; exact Hi).
  unfold ret, printf, emit, set_offset. cbn [disk fd_open offset stdout].
  do 2 f_equal. lia.
Qed.

(** The stream ends before a zero byte and before the array is full. *)
Lemma string_block_short (w : world) :
  opened f w ->
  x00 ∉ ahead f w ->
  Z.of_nat (length (ahead f w)) < size ->
  string_block size wrap the_fd line w =
    (Exit (-1),
     set_open false
       (emit TooFewFilename
          (set_offset (offset w + Z.of_nat (length (ahead f w))) w))).
Proof.
  intros Hw Hs Hlen. unfold string_block.
  pose proof (string_loop_start (uninit 1) w Hw eq_refl) as Hloop.
  rewrite scan_short in Hloop by (first [assumption | lia]).
  rewrite (bind_exit _ _ _ _ _ Hloop). reflexivity.
Qed.

End Block.

Lemma uint8_small (i : Z) : 0 <= i <= 128 -> uint8 i = i.
Proof. intros Hi. unfold uint8, to_uint. apply Z.mod_small. change (2 ^ 8) with 256. lia. Qed.

Lemma uint32_upto (BUFSIZ : Z) (i : Z) :
  BUFSIZ <= INT_MAX -> 0 <= i <= BUFSIZ -> uint32 i = i.
Proof.
  unfold INT_MAX. change (2 ^ 31 - 1) with 2147483647.
  intros HB Hi. apply uint32_small. change (2 ^ 32) with 4294967296. lia.
Qed.

Lemma scan_length (n : nat) :
  forall s bs, scan (S n) s = Some bs -> (1 <= length bs <= S n)%nat.
Proof.
  induction n as [|n IH]; intros [|b s] bs; try discriminate.
  all: rewrite scan_cons; destruct (byte_val b =? 0).
  all: try (intros [= <-]; cbn [length]; lia).
  destruct (scan (S n) s) as [bs'|] eqn:Hs; [|discriminate].
  intros [= <-]. apply IH in Hs. cbn [length]. lia.
Qed.

(** The two blocks are [string_block] at their sizes. *)
Lemma main_filename_block (fd : Z) (header : gzip_header) :
  main_filename fd header =
    when (flag_set header FNAME)
      (when (negb (flag_set header FEXTRA)) (lseek fd (-2) SEEK_CUR ;; ret tt) ;;
       string_block 128 uint8 fd Filename).
Proof. reflexivity. Qed.

Lemma main_comment_block (BUFSIZ fd : Z) (header : gzip_header) :
  main_comment BUFSIZ fd header =
    when (flag_set header FCOMMENT) (string_block BUFSIZ uint32 fd Comment).
Proof. reflexivity. Qed.

Lemma lseek_cur_opened f w off :
  opened f w -> 0 <= offset w + off ->
  lseek the_fd off SEEK_CUR w = (Val (offset w + off), set_offset (offset w + off) w).
Proof.
  intros Hw Hoff. pose proof (valid_fd_opened _ _ Hw) as Hv.
  destruct Hw as (Hd & _ & _). unfold lseek. rewrite Hd, Hv.
  destruct (Z.ltb_spec (offset w + off) 0) as [?|_]; [lia|]. reflexivity.
Qed.

(** Where the file name starts: at the file offset when the extra field
    was read, two bytes before it when there is no extra field. *)
Lemma main_filename_start f header w :
  opened f w ->
  flag_set header FNAME = true ->
  (flag_set header FEXTRA = false -> 2 <= offset w) ->
  let start := if flag_set header FEXTRA then w else set_offset (offset w - 2) w in
  opened f start /\
  main_filename the_fd header w = string_block 128 uint8 the_fd Filename start.
Proof.
  intros Hw Hname Hoff start. subst start.
  rewrite main_filename_block, Hname. unfold when at 1.
  destruct (flag_set header FEXTRA); cbn [negb when].
  - split; [exact Hw | reflexivity].
  - specialize (Hoff eq_refl). split.
    + apply opened_set_offset; [exact Hw | lia].
    + rewrite bind_assoc.
      rewrite (bind_val _ _ _ _ _ (lseek_cur_opened f w (-2) Hw ltac:(lia))).
      reflexivity.
Qed.
(** ** The file name *)

(** C4: with FNAME set, the name is read from [start] on (the file offset,
    moved back by two when there is no extra field), one byte at a time.
    A zero byte within the first 128 bytes ends it: the name printed is
    what stands before the zero byte and the offset is just past it.  128
    bytes without a zero byte fill the array: the name printed is the
    first 127 of them, ended by the zero stored in the last byte.  A
    stream that ends before either is TruncatedInput: the message is
    printed, the descriptor closed and [main] returns -1. *)
Theorem filename_read (f : list byte) (header : gzip_header) (w : world) :
  opened f w ->
  flag_set header FNAME = true ->
  (flag_set header FEXTRA = false -> 2 <= offset w) ->
  let start := if flag_set header FEXTRA then w else set_offset (offset w - 2) w in
  (forall t rest,
     ahead f start = t ++ x00 :: rest -> x00 ∉ t -> (length t < 128)%nat ->
     main_filename the_fd header w =
       (Val tt,
        emit (Filename t)
          (set_offset (offset start + Z.of_nat (length t) + 1) w))) /\
  (forall t rest,
     ahead f start = t ++ rest -> x00 ∉ t -> length t = 128%nat ->
     main_filename the_fd header w =
       (Val tt,
        emit (Filename (take 127 t)) (set_offset (offset start + 128) w))) /\
  (x00 ∉ ahead f start -> (length (ahead f start) < 128)%nat ->
   main_filename the_fd header w =
     (Exit (-1),
      set_open false
        (emit TooFewFilename
           (set_offset (offset start + Z.of_nat (length (ahead f start))) w))) /\
   failure (main_filename the_fd header w) = Some TruncatedInput).
Proof.
  intros Hw Hname Hoff start.
  destruct (main_filename_start f header w Hw Hname Hoff) as [Hstart ->].
  fold start in Hstart |- *.
  assert (Hsame : forall pos, set_offset pos start = set_offset pos w)
    by (intros pos; subst start; destruct (flag_set header FEXTRA); reflexivity).
  assert (Hout : stdout start = stdout w)
    by (subst start; destruct (flag_set header FEXTRA); reflexivity).
  split; [|split].
  - intros t rest Hs Ht Hlen.
    rewrite (string_block_terminated 128 uint8 f Filename ltac:(lia) uint8_small
               start t rest Hstart Hs Ht ltac:(lia)).
    rewrite Hsame. reflexivity.
  - intros t rest Hs Ht Hlen.
    rewrite (string_block_full 128 uint8 f Filename ltac:(lia) uint8_small
               start t rest Hstart Hs Ht ltac:(lia)).
    rewrite Hsame. reflexivity.
  - intros Hs Hlen.
    rewrite (string_block_short 128 uint8 f Filename ltac:(lia) uint8_small
               start Hstart Hs ltac:(lia)).
    rewrite Hsame. split; [reflexivity|].
    unfold failure. cbn [fst snd stdout set_open emit].
    rewrite last_snoc. reflexivity.
Qed.

Lemma filename_read_witness :
  let f := [x1f; x8b; x08; x08; x00; x00; x00; x00; x00; x03;
            x74; x65; x73; x74; x00;
            xde; xad; xbe; xef; x0a; x00; x00; x00] in
  let header := header_of_bytes (take 12 f) in
  let w := World (Some f) true 12 [ValidGzip] in
  opened f w /\
  flag_set header FNAME = true /\
  main_filename the_fd header w =
    (Val tt, World (Some f) true 15 [ValidGzip; Filename [x74; x65; x73; x74]]).
Proof.
  cbv zeta.
  split; [repeat split; cbn; lia|]. split; [reflexivity|].
  refine (proj1 (filename_read _ _ _ _ _ _) [x74; x65; x73; x74]
            [xde; xad; xbe; xef; x0a; x00; x00; x00] _ _ _).
  - repeat split; cbn; lia.
  - reflexivity.
  - intros _. cbn. lia.
  - reflexivity.
  - rewrite !not_elem_of_cons. repeat split; try discriminate. apply not_elem_of_nil.
  - cbn. lia.
Defined.
(** ** Stores stay inside the arrays *)

Section Bounds.

Variables (size : Z) (wrap : Z -> Z) (f : list byte).
Hypothesis size_pos : 1 <= size.
Hypothesis wrap_id : forall i, 0 <= i <= size -> wrap i = i.

(** The loop ends in one of two ways: it has written [bs], between one
    byte and as many as the array has, into the first cells of the array,
    or it has found the stream at its end.  It is never undefined and
    never short of fuel. *)
Lemma string_loop_in_bounds (w : world) :
  opened f w ->
  let loop := string_loop size wrap the_fd (Z.to_nat size) (uninit 1) 0 (uninit size) in
  (exists bs,
     (1 <= length bs <= Z.to_nat size)%nat /\
     loop w = (Val (write (uninit size) 0 bs),
               set_offset (offset w + Z.of_nat (length bs)) w)) \/
  (loop w).1 = Exit (-1).
Proof.
  intros Hw loop. subst loop.
  rewrite (string_loop_start size wrap f size_pos wrap_id (uninit 1) w Hw eq_refl).
  destruct (scan (Z.to_nat size) (ahead f w)) as [bs|] eqn:Hs; [left | right; reflexivity].
  exists bs. split; [|reflexivity].
  replace (Z.to_nat size) with (S (Z.to_nat (size - 1))) in * by lia.
  eapply scan_length. exact Hs.
Qed.

(** No zero byte among the first [size] bytes of the stream: the loop
    fills the array, the store after it replaces the last byte by zero,
    and the string that is printed is the first [size - 1] bytes. *)
Lemma string_loop_full (w : world) (t rest : list byte) :
  opened f w ->
  ahead f w = t ++ rest ->
  x00 ∉ t ->
  Z.of_nat (length t) = size ->
  string_loop size wrap the_fd (Z.to_nat size) (uninit 1) 0 (uninit size) w =
    (Val (Some <$> t), set_offset (offset w + size) w) /\
  store (Some <$> t) (size - 1) x00 =
    Some ((Some <$> take (Z.to_nat size - 1) t) ++ [Some x00]) /\
  c_string ((Some <$> take (Z.to_nat size - 1) t) ++ [Some x00]) =
    Some (take (Z.to_nat size - 1) t).
Proof.
  intros Hw Hs Ht Hlen.
  assert (Hfull : write (uninit size) 0 t = Some <$> t).
  { unfold write. rewrite take_0. cbn [app Nat.add].
    rewrite drop_ge by (rewrite length_uninit; lia). apply app_nil_r. }
  split; [|split].
  - rewrite (string_loop_start size wrap f size_pos wrap_id (uninit 1) w Hw eq_refl).
    rewrite Hs, scan_full by (first [assumption | lia]).
    rewrite Hfull, Hlen. reflexivity.
  - pose proof (store_last size size_pos (Some <$> t) w) as Hstore.
    unfold store_at in Hstore.
    destruct (store (Some <$> t) (size - 1) x00) as [buf|] eqn:Hbuf.
    + specialize (Hstore ltac:(rewrite length_fmap; lia)).
      injection Hstore as ->. rewrite <- Hfull. unfold uninit.
      rewrite full_array by lia. reflexivity.
    + specialize (Hstore ltac:(rewrite length_fmap; lia)). discriminate.
  - apply c_string_terminated.
    intros Hin. apply Ht. apply elem_of_take in Hin as (i & Hi & _).
    eapply list_elem_of_lookup_2. exact Hi.
Qed.

End Bounds.

(** ** What every block preserves *)

Section Invariants.

Context {A B : Type} (f : list byte).

Lemma keeps_ret (a : A) : keeps f (ret a).
Proof. intros w a' w' Hw [= _ <-]. exact Hw. Qed.

Lemma keeps_bind (m : M A) (k : A -> M B) :
  keeps f m -> (forall a, keeps f (k a)) -> keeps f (bind m k).
Proof.
  intros Hm Hk w b w' Hw. unfold bind.
  destruct (m w) as [[a| | |] w1] eqn:Hmw; try discriminate.
  intros Hkw. exact (Hk a w1 b w' (Hm w a w1 Hw Hmw) Hkw).
Qed.

Lemma keeps_exit (s : Z) : keeps f (exit s : M A).
Proof. intros w a w' _ [=]. Qed.

Lemma keeps_undefined : keeps f (undefined : M A).
Proof. intros w a w' _ [=]. Qed.

Lemma keeps_out_of_fuel : keeps f (out_of_fuel : M A).
Proof. intros w a w' _ [=]. Qed.

Lemma keeps_then_exit (m : M A) (s : Z) : keeps f (bind m (fun _ => exit s) : M B).
Proof.
  intros w b w' _. unfold bind, exit.
  destruct (m w) as [[a| | |] w1]; discriminate.
Qed.

End Invariants.

Lemma keeps_printf f e : keeps f (printf e).
Proof. intros w a w' Hw [= _ <-]. apply opened_emit. exact Hw. Qed.

Lemma keeps_read f fd buf count : keeps f (read fd buf count).
Proof.
  intros w a w' Hw. unfold read.
  destruct (disk w); [destruct (valid_fd fd w)|]; intros [= _ <-]; try exact Hw.
  apply opened_set_offset; [exact Hw | destruct Hw as (_ & _ & ?); lia].
Qed.

Lemma keeps_lseek f fd off wh : keeps f (lseek fd off wh).
Proof.
  intros w a w' Hw. unfold lseek.
  destruct (disk w); [destruct (valid_fd fd w)|]; cbv zeta;
    [destruct (Z.ltb_spec (match wh with SEEK_CUR => offset w | SEEK_END => Z.of_nat (length l) end + off) 0)|..];
    intros [= _ <-]; try exact Hw.
  apply opened_set_offset; [exact Hw | lia].
Qed.

Lemma keeps_load f mem : keeps f (load mem).
Proof. unfold load. destruct (defined mem); [apply keeps_ret | apply keeps_undefined]. Qed.

Lemma keeps_load_char f mem : keeps f (load_char mem).
Proof.
  unfold load_char.
  destruct mem as [|[b|] [|? ?]]; first [apply keeps_ret | apply keeps_undefined].
Qed.

Lemma keeps_load_string f buf : keeps f (load_string buf).
Proof. unfold load_string. destruct (c_string buf); [apply keeps_ret | apply keeps_undefined]. Qed.

Lemma keeps_store_at f buf i v : keeps f (store_at buf i v).
Proof. unfold store_at. destruct (store buf i v); [apply keeps_ret | apply keeps_undefined]. Qed.

Lemma keeps_when f b m : keeps f m -> keeps f (when b m).
Proof. intros Hm. destruct b; [exact Hm | apply keeps_ret]. Qed.

Create HintDb blocks.

#[local] Hint Resolve keeps_ret keeps_bind keeps_exit keeps_undefined
  keeps_out_of_fuel keeps_then_exit keeps_printf keeps_read keeps_lseek
  keeps_load keeps_load_char keeps_load_string keeps_store_at keeps_when
  : blocks.

(** Split the conditionals of a block, then use the lemmas above. *)
Ltac block :=
  cbv zeta;
  repeat match goal with
         | |- keeps _ (if ?b then _ else _) => destruct b
         | |- keeps _ (bind _ (fun _ => exit _)) => apply keeps_then_exit
         | |- keeps _ (bind _ _) => apply keeps_bind; [|intros ?; cbv zeta]
         | |- keeps _ (when _ _) => apply keeps_when
         end;
  auto with blocks.

Lemma keeps_string_loop f size wrap fd fuel :
  forall c len buf, keeps f (string_loop size wrap fd fuel c len buf).
Proof.
  induction fuel as [|fuel IH]; intros c len buf; cbn [string_loop];
    [apply keeps_out_of_fuel|].
  block.
Qed.

#[local] Hint Resolve keeps_string_loop : blocks.

Lemma keeps_main_magic f header : keeps f (main_magic header).
Proof. unfold main_magic. block. Qed.

Lemma keeps_main_method f header : keeps f (main_method header).
Proof. unfold main_method. block. Qed.

Lemma keeps_main_report f header : keeps f (main_report header).
Proof. unfold main_report. block. Qed.

Lemma keeps_main_extra f fd header : keeps f (main_extra fd header).
Proof. unfold main_extra. block. Qed.

Lemma keeps_main_filename f fd header : keeps f (main_filename fd header).
Proof. unfold main_filename. block. Qed.

Lemma keeps_main_comment f BUFSIZ fd header : keeps f (main_comment BUFSIZ fd header).
Proof. unfold main_comment. block. Qed.

Lemma keeps_main_hcrc f fd header : keeps f (main_hcrc fd header).
Proof. unfold main_hcrc. block. Qed.

Lemma keeps_main_optional f BUFSIZ fd header :
  keeps f (main_optional BUFSIZ fd header).
Proof.
  unfold main_optional.
  auto using keeps_bind, keeps_main_extra, keeps_main_filename,
    keeps_main_comment, keeps_main_hcrc.
Qed.
(** ** The trailer *)

Lemma lseek_end_opened f w off :
  opened f w -> 0 <= Z.of_nat (length f) + off ->
  lseek the_fd off SEEK_END w =
    (Val (Z.of_nat (length f) + off), set_offset (Z.of_nat (length f) + off) w).
Proof.
  intros Hw Hoff. pose proof (valid_fd_opened _ _ Hw) as Hv.
  destruct Hw as (Hd & _ & _). unfold lseek. rewrite Hd, Hv.
  destruct (Z.ltb_spec (Z.of_nat (length f) + off) 0) as [?|_]; [lia|]. reflexivity.
Qed.

Lemma main_trailer_opened f w :
  opened f w ->
  (8 <= length f)%nat ->
  let last8 := drop (length f - 8) f in
  main_trailer the_fd w =
    (Val tt,
     World (Some f) false (Z.of_nat (length f))
       (stdout w ++ [Checksum (le_decode (take 4 last8));
                      Isize (le_decode (drop 4 last8))])).
Proof.
  intros Hw Hlen last8. subst last8.
  assert (Hseek := lseek_end_opened f w (-8) Hw ltac:(lia)).
  unfold main_trailer. rewrite (bind_val _ _ _ _ _ Hseek).
  destruct (Z.eqb_spec (Z.of_nat (length f) + -8) (-1)) as [?|_]; [lia|].
  set (w1 := set_offset (Z.of_nat (length f) + -8) w).
  assert (Hw1 : opened f w1) by (apply opened_set_offset; [exact Hw | lia]).
  unfold bind at 1. rewrite (read_opened f w1 _ _ Hw1). cbn zeta.
  change (Z.to_nat 4) with 4%nat.
  assert (Ha1 : ahead f w1 = drop (length f - 8) f)
    by (unfold ahead, w1; cbn [offset set_offset]; f_equal; lia).
  rewrite Ha1.
  assert (H4 : length (take 4 (drop (length f - 8) f)) = 4%nat)
    by (rewrite length_take, length_drop; lia).
  rewrite H4. cbn [fst snd].
  change (uint32 (Z.of_nat 4) <? 4) with false. cbv iota.
  rewrite overlay_all by (rewrite length_uninit; lia).
  unfold bind at 1, load at 1. rewrite defined_Some. cbn [ret].
  unfold bind at 1, printf at 1.
  set (w2 := emit _ (set_offset _ w1)).
  assert (Hw2 : opened f w2)
    by (apply opened_emit, opened_set_offset; [exact Hw1 | unfold w1; cbn; lia]).
  unfold bind at 1. rewrite (read_opened f w2 _ _ Hw2). cbn zeta.
  change (Z.to_nat 4) with 4%nat.
  assert (Ha2 : ahead f w2 = drop 4 (drop (length f - 8) f)).
  { unfold ahead, w2, w1. cbn [offset set_offset emit].
    rewrite drop_drop. f_equal. lia. }
  rewrite Ha2.
  assert (H4' : take 4 (drop 4 (drop (length f - 8) f)) = drop 4 (drop (length f - 8) f))
    by (apply take_ge; rewrite !length_drop; lia).
  rewrite H4'.
  assert (H4'' : length (drop 4 (drop (length f - 8) f)) = 4%nat)
    by (rewrite !length_drop; lia).
  rewrite H4''. cbn [fst snd].
  change (uint32 (Z.of_nat 4) <? 4) with false. cbv iota.
  rewrite overlay_all by (rewrite length_uninit; lia).
  unfold bind at 1, load at 1. rewrite defined_Some. cbn [ret].
  unfold bind at 1, printf at 1.
  unfold bind. erewrite close_opened by
    (apply opened_emit, opened_set_offset; [exact Hw2 | unfold w2, w1; cbn; lia]).
  unfold ret, set_open, emit, set_offset, w2, w1, emit, set_offset.
  cbn [disk fd_open offset stdout].
  destruct Hw as (-> & _ & _). rewrite <- app_assoc. cbn [app].
  do 2 f_equal. lia.
Qed.

Lemma keeps_main_header f fd : keeps f (main_header fd).
Proof. unfold main_header. block. Qed.

Lemma keeps_main_head f BUFSIZ fd : keeps f (main_head BUFSIZ fd).
Proof.
  unfold main_head. apply keeps_bind; [apply keeps_main_header|].
  intros header.
  auto using keeps_bind, keeps_main_magic, keeps_main_method,
    keeps_main_report, keeps_main_optional.
Qed.

(** A run that gets past the optional fields has the descriptor open on a
    file of twelve bytes or more. *)
Lemma main_head_reaches BUFSIZ f w :
  main_head BUFSIZ the_fd (World (Some f) true 0 []) = (Val tt, w) ->
  opened f w /\ (12 <= length f)%nat.
Proof.
  intros Hrun. pose proof (opened_start f) as H0.
  split; [exact (keeps_main_head f BUFSIZ the_fd _ _ _ H0 Hrun)|].
  destruct (le_lt_dec 12 (length f)) as [Hlen|Hlen]; [exact Hlen|].
  unfold main_head in Hrun.
  rewrite (bind_exit _ _ _ _ _ (main_header_short f _ H0 eq_refl Hlen)) in Hrun.
  discriminate.
Qed.

Lemma main_reaches BUFSIZ f w :
  main_head BUFSIZ the_fd (World (Some f) true 0 []) = (Val tt, w) ->
  main BUFSIZ 2 (boot (Some f)) = main_trailer the_fd w.
Proof.
  intros Hrun. unfold main. cbn [Z.eqb Pos.eqb negb].
  rewrite (bind_val _ _ _ _ _ (open_boot f)).
  rewrite (bind_val _ _ _ _ _ Hrun). reflexivity.
Qed.

(** C6: two files that both get past the optional fields and end in the
    same eight bytes have the same trailer printed, whatever their flags
    and optional fields: the offset is set to eight bytes before the end
    of the file, the first four of the last eight bytes are the CRC-32 and
    the other four the size, both little-endian. *)
Theorem trailer_independent_of_header (BUFSIZ : Z) (f1 f2 : list byte)
    (w1 w2 : world) :
  main_head BUFSIZ the_fd (World (Some f1) true 0 []) = (Val tt, w1) ->
  main_head BUFSIZ the_fd (World (Some f2) true 0 []) = (Val tt, w2) ->
  drop (length f1 - 8) f1 = drop (length f2 - 8) f2 ->
  let last8 := drop (length f1 - 8) f1 in
  let trailer := [Checksum (le_decode (take 4 last8));
                  Isize (le_decode (drop 4 last8))] in
  lseek the_fd (-8) SEEK_END w1 =
    (Val (Z.of_nat (length f1) - 8), set_offset (Z.of_nat (length f1) - 8) w1) /\
  lseek the_fd (-8) SEEK_END w2 =
    (Val (Z.of_nat (length f2) - 8), set_offset (Z.of_nat (length f2) - 8) w2) /\
  main BUFSIZ 2 (boot (Some f1)) =
    (Val tt, World (Some f1) false (Z.of_nat (length f1)) (stdout w1 ++ trailer)) /\
  main BUFSIZ 2 (boot (Some f2)) =
    (Val tt, World (Some f2) false (Z.of_nat (length f2)) (stdout w2 ++ trailer)).
Proof.
  intros Hrun1 Hrun2 Hlast last8 trailer. subst trailer last8.
  destruct (main_head_reaches _ _ _ Hrun1) as [Hw1 Hlen1].
  destruct (main_head_reaches _ _ _ Hrun2) as [Hw2 Hlen2].
  split; [|split; [|split]].
  - apply (lseek_end_opened f1 w1 (-8) Hw1). lia.
  - apply (lseek_end_opened f2 w2 (-8) Hw2). lia.
  - rewrite (main_reaches _ _ _ Hrun1).
    apply (main_trailer_opened f1 w1 Hw1). lia.
  - rewrite (main_reaches _ _ _ Hrun2), Hlast.
    apply (main_trailer_opened f2 w2 Hw2). lia.
Qed.

Lemma trailer_independent_of_header_witness :
  let f1 := [x1f; x8b; x08; x00; x00; x00; x00; x00; x00; x03; x00; x00;
             xde; xad; xbe; xef; x0a; x00; x00; x00] in
  let f2 := [x1f; x8b; x08; x08; x00; x00; x00; x00; x00; x03;
             x74; x65; x73; x74; x00;
             xde; xad; xbe; xef; x0a; x00; x00; x00] in
  drop (length f1 - 8) f1 = drop (length f2 - 8) f2 /\
  main 8192 2 (boot (Some f1)) =
    (Val tt,
     World (Some f1) false 20
       [ValidGzip; Deflate; Xfl 0; Os true; Checksum 4022250974; Isize 10]) /\
  main 8192 2 (boot (Some f2)) =
    (Val tt,
     World (Some f2) false 23
       [ValidGzip; Deflate; FlagsSet; FlagName FNAME; FlagsEnd; Xfl 0; Os true;
        Filename [x74; x65; x73; x74]; Checksum 4022250974; Isize 10]).
Proof.
  cbv zeta. split; [reflexivity|].
  refine (proj2 (proj2 (trailer_independent_of_header 8192 _ _
            (World _ true 12 [ValidGzip; Deflate; Xfl 0; Os true])
            (World _ true 15
               [ValidGzip; Deflate; FlagsSet; FlagName FNAME; FlagsEnd; Xfl 0;
                Os true; Filename [x74; x65; x73; x74]]) _ _ _)));
    reflexivity.
Defined.

(** ** Every block ends, one way or the other *)

(** A stream has a zero byte among its first [n] bytes, or [n] bytes
    without one, or it ends before either: no stream is left out. *)
Lemma stream_cases (n : nat) :
  forall s : list byte,
    (exists t rest, s = t ++ x00 :: rest /\ (x00 ∉ t) /\ (length t < n)%nat) \/
    (exists t rest, s = t ++ rest /\ (x00 ∉ t) /\ length t = n) \/
    ((x00 ∉ s) /\ (length s < n)%nat).
Proof.
  induction n as [|n IH]; intros s.
  - right. left. exists [], s. repeat split. apply not_elem_of_nil.
  - destruct s as [|b s].
    + right. right. split; [apply not_elem_of_nil | cbn; lia].
    + destruct (Z.eqb_spec (byte_val b) 0) as [Hb|Hb].
      * apply byte_val_zero in Hb as ->.
        left. exists [], s. repeat split; [apply not_elem_of_nil | cbn; lia].
      * assert (Hnz : x00 <> b) by (intros <-; apply Hb; reflexivity).
        destruct (IH s) as [(t & rest & -> & Ht & Hlen)
                           |[(t & rest & -> & Ht & Hlen)|[Hs Hlen]]].
        -- left. exists (b :: t), rest. repeat split.
           ++ apply not_elem_of_cons. split; assumption.
           ++ cbn [length]. lia.
        -- right. left. exists (b :: t), rest. repeat split.
           ++ apply not_elem_of_cons. split; assumption.
           ++ cbn [length]. lia.
        -- right. right. split.
           ++ apply not_elem_of_cons. split; assumption.
           ++ cbn [length]. lia.
Qed.

Section Total.

Variables (size : Z) (wrap : Z -> Z) (f : list byte) (line : list byte -> event).
Hypothesis size_pos : 1 <= size.
Hypothesis wrap_id : forall i, 0 <= i <= size -> wrap i = i.

Lemma string_block_total (w : world) :
  opened f w ->
  (exists s k,
     1 <= k /\
     string_block size wrap the_fd line w =
       (Val tt, emit (line s) (set_offset (offset w + k) w))) \/
  string_block size wrap the_fd line w =
    (Exit (-1),
     set_open false
       (emit TooFewFilename
          (set_offset (offset w + Z.of_nat (length (ahead f w))) w))).
Proof.
  intros Hw.
  destruct (stream_cases (Z.to_nat size) (ahead f w))
    as [(t & rest & Hs & Ht & Hlen)|[(t & rest & Hs & Ht & Hlen)|[Hs Hlen]]].
  - left. exists t, (Z.of_nat (length t) + 1). split; [lia|].
    rewrite Z.add_assoc.
    apply (string_block_terminated size wrap f line size_pos wrap_id w t rest);
      first [assumption | lia].
  - left. exists (take (Z.to_nat size - 1) t), size. split; [lia|].
    apply (string_block_full size wrap f line size_pos wrap_id w t rest);
      first [assumption | lia].
  - right.
    apply (string_block_short size wrap f line size_pos wrap_id w);
      first [assumption | lia].
Qed.

End Total.

Lemma lseek_total f w off wh :
  opened f w ->
  exists p w1,
    lseek the_fd off wh w = (Val p, w1) /\ opened f w1 /\ stdout w1 = stdout w.
Proof.
  intros Hw. pose proof (valid_fd_opened _ _ Hw) as Hv.
  unfold lseek. destruct Hw as (Hd & Hop & Hoff). rewrite Hd, Hv. cbv zeta.
  destruct (Z.ltb_spec (match wh with SEEK_CUR => offset w | SEEK_END => Z.of_nat (length f) end + off) 0).
  - eexists _, _. split; [reflexivity|]. repeat split; assumption.
  - eexists _, _. split; [reflexivity|]. repeat split; cbn; assumption.
Qed.


(** ** Parsed fields and the worlds they stand for *)

Lemma prepend_nil (p : parsed) : prepend [] p = p.
Proof. destruct p; reflexivity. Qed.

Lemma outcome_prepend f out evs p :
  outcome f (out ++ evs) p = outcome f out (prepend evs p).
Proof. destruct p; cbn [outcome prepend]; rewrite app_assoc; reflexivity. Qed.

Lemma then_spec_skip (s : Z -> parsed) (pos : Z) :
  then_spec skip_spec s pos = s pos.
Proof. unfold then_spec, skip_spec. apply prepend_nil. Qed.

Lemma then_spec_skip_r (s : Z -> parsed) (pos : Z) :
  then_spec s skip_spec pos = s pos.
Proof.
  unfold then_spec, skip_spec.
  destruct (s pos); cbn [prepend]; rewrite ?app_nil_r; reflexivity.
Qed.

Lemma then_spec_ext (s1 s2 s2' : Z -> parsed) (pos : Z) :
  (forall p, s2 p = s2' p) -> then_spec s1 s2 pos = then_spec s1 s2' pos.
Proof. intros Hs. unfold then_spec. destruct (s1 pos); rewrite ?Hs; reflexivity. Qed.

Lemma then_spec_parsed (s1 s2 : Z -> parsed) (pos : Z) l p :
  then_spec s1 s2 pos = Parsed l p ->
  exists l1 p1 l2,
    s1 pos = Parsed l1 p1 /\ s2 p1 = Parsed l2 p /\ l = l1 ++ l2.
Proof.
  unfold then_spec. destruct (s1 pos) as [l1 p1|l1 p1|l1 p1]; try discriminate.
  destruct (s2 p1) as [l2 p2|l2 p2|l2 p2] eqn:H2; cbn [prepend]; try discriminate.
  intros [= <- <-]. exists l1, p1, l2. split_and!; first [reflexivity | exact H2].
Qed.

Lemma world_opened f w :
  opened f w -> w = World (Some f) true (offset w) (stdout w).
Proof.
  destruct w as [d o p out]. intros (Hd & Ho & _).
  cbn [disk fd_open offset stdout] in *. subst. reflexivity.
Qed.

Lemma emit_opened f w e pos :
  opened f w ->
  emit e (set_offset pos w) = World (Some f) true pos (stdout w ++ [e]).
Proof.
  intros (Hd & Ho & _). unfold emit, set_offset.
  cbn [disk fd_open offset stdout]. rewrite Hd, Ho. reflexivity.
Qed.

Lemma too_few_opened f w e pos :
  opened f w ->
  set_open false (emit e (set_offset pos w)) =
    World (Some f) false pos (stdout w ++ [e]).
Proof.
  intros (Hd & Ho & _). unfold set_open, emit, set_offset.
  cbn [disk fd_open offset stdout]. rewrite Hd. reflexivity.
Qed.

(** ** Blocks against their description *)

Lemma refines_skip f lo : refines f lo (ret tt) skip_spec.
Proof.
  intros w Hw _. unfold skip_spec, outcome, ret. rewrite app_nil_r.
  f_equal. apply world_opened. exact Hw.
Qed.

Lemma refines_ext f lo m (s s' : Z -> parsed) :
  refines f lo m s -> (forall pos, s pos = s' pos) -> refines f lo m s'.
Proof. intros Hm Hs w Hw Hlo. rewrite <- Hs. apply Hm; assumption. Qed.

Lemma refines_from f lo lo' m (s : Z -> parsed) :
  refines f lo m s -> lo <= lo' -> refines f lo' m s.
Proof. intros Hm Hlo w Hw Hlo'. apply Hm; [exact Hw | lia]. Qed.

Lemma refines_seq f lo lo' (m1 m2 : M unit) (s1 s2 : Z -> parsed) :
  refines f lo m1 s1 ->
  (forall w w', opened f w -> lo <= offset w -> m1 w = (Val tt, w') ->
                opened f w' /\ lo' <= offset w') ->
  refines f lo' m2 s2 ->
  refines f lo (m1 ;; m2) (then_spec s1 s2).
Proof.
  intros H1 Hk H2 w Hw Hlo. specialize (H1 w Hw Hlo). unfold then_spec.
  destruct (s1 (offset w)) as [l p|l p|l p]; cbn [outcome] in H1.
  - rewrite (bind_val _ _ _ _ _ H1).
    destruct (Hk w _ Hw Hlo H1) as [Hw' Hlo'].
    rewrite (H2 _ Hw' Hlo'). cbn [stdout offset]. apply outcome_prepend.
  - rewrite (bind_exit _ _ _ _ _ H1). reflexivity.
  - unfold bind. rewrite H1. reflexivity.
Qed.

Lemma keeps_from f lo (m : M unit) :
  keeps f m ->
  forall w w', opened f w -> lo <= offset w -> m w = (Val tt, w') ->
               opened f w' /\ 0 <= offset w'.
Proof.
  intros Hm w w' Hw _ Hrun. pose proof (Hm w tt w' Hw Hrun) as Hw'.
  split; [exact Hw' | destruct Hw' as (_ & _ & ?); assumption].
Qed.

(** ** The extra field and the header checksum *)

(** An extra field of no bytes: the array of line 100 has no elements. *)
Lemma main_extra_zero fd header w :
  flag_set header FEXTRA = true ->
  xlen header = 0 ->
  main_extra fd header w = (Undefined, w).
Proof. intros Hon Hx. unfold main_extra. rewrite Hon, Hx. reflexivity. Qed.

Lemma main_extra_run f header w :
  opened f w ->
  flag_set header FEXTRA = true ->
  0 < xlen header < 2 ^ 16 ->
  main_extra the_fd header w =
    if Z.of_nat (length (ahead f w)) <? xlen header
    then (Exit (-1),
          set_open false
            (emit TooFewExtra
               (set_offset (offset w + Z.of_nat (length (ahead f w))) w)))
    else (Val tt,
          emit (ExtraField (take (Z.to_nat (xlen header)) (ahead f w)))
            (set_offset (offset w + xlen header) w)).
Proof.
  intros Hw Hon Hx. unfold main_extra. rewrite Hon. cbn [when].
  destruct (Z.eqb_spec (xlen header) 0) as [?|_]; [lia|]. cbv zeta.
  assert (Hoff : 0 <= offset w) by (destruct Hw as (_ & _ & ?); assumption).
  pose proof (read_opened f w (uninit (xlen header)) (xlen header) Hw) as Hread.
  cbn zeta in Hread. rewrite (bind_val _ _ _ _ _ Hread). cbn [fst snd].
  set (bs := take (Z.to_nat (xlen header)) (ahead f w)).
  assert (Hbs : length bs = Nat.min (Z.to_nat (xlen header)) (length (ahead f w)))
    by (unfold bs; apply length_take).
  rewrite uint32_small
    by (change (2 ^ 32) with 4294967296; change (2 ^ 16) with 65536 in Hx; lia).
  destruct (Z.ltb_spec (Z.of_nat (length (ahead f w))) (xlen header)) as [Hlen|Hlen].
  - destruct (Z.ltb_spec (Z.of_nat (length bs)) (xlen header)) as [_|?]; [|lia].
    replace (Z.of_nat (length bs)) with (Z.of_nat (length (ahead f w))) by lia.
    apply (too_few_exit f).
    apply opened_set_offset; [exact Hw | lia].
  - destruct (Z.ltb_spec (Z.of_nat (length bs)) (xlen header)) as [?|_]; [lia|].
    rewrite overlay_all by (rewrite length_uninit; lia).
    unfold bind, load. rewrite defined_Some. cbn [ret printf].
    replace (Z.of_nat (length bs)) with (xlen header) by lia. reflexivity.
Qed.

Lemma main_hcrc_run f header w :
  opened f w ->
  flag_set header FHCRC = true ->
  main_hcrc the_fd header w =
    if Z.of_nat (length (ahead f w)) <? 2
    then (Exit (-1),
          set_open false
            (emit TooFewHcrc
               (set_offset (offset w + Z.of_nat (length (ahead f w))) w)))
    else (Val tt,
          emit (HeaderChecksum (le_decode (take 2 (ahead f w))))
            (set_offset (offset w + 2) w)).
Proof.
  intros Hw Hon. unfold main_hcrc. rewrite Hon. cbn [when]. cbv zeta.
  assert (Hoff : 0 <= offset w) by (destruct Hw as (_ & _ & ?); assumption).
  pose proof (read_opened f w (uninit 2) 2 Hw) as Hread.
  cbn zeta in Hread. rewrite (bind_val _ _ _ _ _ Hread). cbn [fst snd].
  change (Z.to_nat 2) with 2%nat.
  set (bs := take 2 (ahead f w)).
  assert (Hbs : length bs = Nat.min 2 (length (ahead f w)))
    by (unfold bs; apply length_take).
  rewrite uint32_small by (change (2 ^ 32) with 4294967296; lia).
  destruct (Z.ltb_spec (Z.of_nat (length (ahead f w))) 2) as [Hlen|Hlen].
  - destruct (Z.ltb_spec (Z.of_nat (length bs)) 2) as [_|?]; [|lia].
    replace (Z.of_nat (length bs)) with (Z.of_nat (length (ahead f w))) by lia.
    apply (too_few_exit f).
    apply opened_set_offset; [exact Hw | lia].
  - destruct (Z.ltb_spec (Z.of_nat (length bs)) 2) as [?|_]; [lia|].
    rewrite overlay_all by (rewrite length_uninit; lia).
    unfold bind, load. rewrite defined_Some. cbn [ret printf].
    replace (Z.of_nat (length bs)) with 2 by lia. reflexivity.
Qed.

Section Fields.

Variables (BUFSIZ : Z) (f : list byte) (header : gzip_header).
Hypothesis BUFSIZ_range : 0 < BUFSIZ <= INT_MAX.
Hypothesis xlen_uint16 : 0 <= xlen header < 2 ^ 16.

Lemma main_extra_refines :
  refines f 0 (main_extra the_fd header) (block_spec BUFSIZ header f FEXTRA).
Proof.
  unfold block_spec. destruct (flag_set header FEXTRA) eqn:Hon.
  2:{ unfold main_extra. rewrite Hon. apply refines_skip. }
  intros w Hw _. cbn [field_spec]. cbv zeta.
  destruct (Z.eqb_spec (xlen header) 0) as [Hz|Hz].
  - rewrite (main_extra_zero _ _ _ Hon Hz). cbn [outcome]. rewrite app_nil_r.
    f_equal. apply world_opened. exact Hw.
  - rewrite (main_extra_run f header w Hw Hon) by lia. unfold ahead.
    destruct (_ <? _); cbn [outcome].
    + rewrite (too_few_opened f) by exact Hw. reflexivity.
    + rewrite (emit_opened f) by exact Hw. reflexivity.
Qed.

Lemma main_hcrc_refines :
  refines f 0 (main_hcrc the_fd header) (block_spec BUFSIZ header f FHCRC).
Proof.
  unfold block_spec. destruct (flag_set header FHCRC) eqn:Hon.
  2:{ unfold main_hcrc. rewrite Hon. apply refines_skip. }
  intros w Hw _. cbn [field_spec]. cbv zeta.
  rewrite (main_hcrc_run f header w Hw Hon). unfold ahead.
  destruct (_ <? _); cbn [outcome].
  - rewrite (too_few_opened f) by exact Hw. reflexivity.
  - rewrite (emit_opened f) by exact Hw. reflexivity.
Qed.

End Fields.

(** ** Strings against their description *)

Lemma until_zero_all (t : list byte) : x00 ∉ t -> until_zero t = t.
Proof.
  induction t as [|b t IH]; intros Ht; [reflexivity|].
  apply not_elem_of_cons in Ht as [Hb Ht].
  cbn [until_zero]. rewrite (nonzero_byte b) by congruence.
  rewrite IH by assumption. reflexivity.
Qed.

Lemma until_zero_take_terminated (t : list byte) :
  forall n, x00 ∉ t -> (length t <= n)%nat ->
  until_zero (take n (t ++ [x00])) = t.
Proof.
  induction t as [|b t IH]; intros n Ht Hn.
  - destruct n; reflexivity.
  - apply not_elem_of_cons in Ht as [Hb Ht].
    destruct n as [|n]; cbn [length] in Hn; [lia|].
    cbn [app take until_zero]. rewrite (nonzero_byte b) by congruence.
    rewrite IH by (first [assumption | lia]). reflexivity.
Qed.

Lemma not_elem_of_take (t : list byte) (n : nat) : x00 ∉ t -> x00 ∉ take n t.
Proof.
  intros Ht Hin. apply Ht. apply elem_of_take in Hin as (i & Hi & _).
  eapply list_elem_of_lookup_2. exact Hi.
Qed.

Section StringField.

Variables (size : Z) (wrap : Z -> Z) (f : list byte) (line : list byte -> event).
Hypothesis size_pos : 1 <= size.
Hypothesis wrap_id : forall i, 0 <= i <= size -> wrap i = i.

Lemma string_block_refines :
  refines f 0 (string_block size wrap the_fd line) (string_field size line f).
Proof.
  intros w Hw _. unfold string_field. cbv zeta. fold (ahead f w).
  destruct (stream_cases (Z.to_nat size) (ahead f w))
    as [(t & rest & Hs & Ht & Hlen)|[(t & rest & Hs & Ht & Hlen)|[Hs Hlen]]].
  - rewrite (string_block_terminated size wrap f line size_pos wrap_id w t rest
               Hw Hs Ht) by lia.
    rewrite Hs, scan_terminated by assumption. cbn [outcome].
    rewrite until_zero_take_terminated by (first [assumption | lia]).
    rewrite (emit_opened f) by exact Hw.
    rewrite length_app. cbn [length]. do 2 f_equal. lia.
  - rewrite (string_block_full size wrap f line size_pos wrap_id w t rest
               Hw Hs Ht) by lia.
    rewrite Hs, scan_full by assumption. cbn [outcome].
    rewrite until_zero_all by (apply not_elem_of_take; exact Ht).
    rewrite (emit_opened f) by exact Hw.
    do 2 f_equal. lia.
  - rewrite (string_block_short size wrap f line size_pos wrap_id w Hw Hs) by lia.
    rewrite scan_short by assumption. cbn [outcome].
    rewrite (too_few_opened f) by exact Hw. reflexivity.
Qed.

End StringField.

Section Optional.

Variables (BUFSIZ : Z) (f : list byte) (header : gzip_header).
Hypothesis BUFSIZ_range : 0 < BUFSIZ <= INT_MAX.
Hypothesis xlen_uint16 : 0 <= xlen header < 2 ^ 16.

Lemma main_filename_refines :
  refines f (if flag_set header FEXTRA then 0 else 2)
    (main_filename the_fd header) (block_spec BUFSIZ header f FNAME).
Proof.
  unfold block_spec. destruct (flag_set header FNAME) eqn:Hname.
  2:{ rewrite main_filename_block, Hname. apply refines_skip. }
  intros w Hw Hlo.
  assert (Hoff : flag_set header FEXTRA = false -> 2 <= offset w)
    by (intros He; rewrite He in Hlo; exact Hlo).
  destruct (main_filename_start f header w Hw Hname Hoff) as [Hstart ->].
  rewrite (string_block_refines 128 uint8 f Filename ltac:(lia) uint8_small _ Hstart)
    by (destruct Hstart as (_ & _ & ?); assumption).
  cbn [field_spec]. destruct (flag_set header FEXTRA); reflexivity.
Qed.

Lemma main_comment_refines :
  refines f 0 (main_comment BUFSIZ the_fd header) (block_spec BUFSIZ header f FCOMMENT).
Proof.
  unfold block_spec. rewrite main_comment_block.
  destruct (flag_set header FCOMMENT); [|apply refines_skip].
  cbn [when field_spec].
  apply string_block_refines; [lia|].
  intros i; apply uint32_upto; lia.
Qed.

(** After the block of the extra field the file name can be read: either
    there was an extra field, or the offset is where it was. *)
Lemma main_extra_leaves w w' :
  opened f w -> 2 <= offset w ->
  main_extra the_fd header w = (Val tt, w') ->
  opened f w' /\ (if flag_set header FEXTRA then 0 else 2) <= offset w'.
Proof.
  intros Hw Hlo Hrun.
  pose proof (keeps_main_extra f the_fd header w tt w' Hw Hrun) as Hw'.
  split; [exact Hw'|].
  destruct (flag_set header FEXTRA) eqn:Hon.
  - destruct Hw' as (_ & _ & ?); assumption.
  - unfold main_extra in Hrun. rewrite Hon in Hrun. injection Hrun as <-. exact Hlo.
Qed.

Lemma fields_spec_filter (on : flag_name -> bool) (fields : list flag_name) :
  forall pos,
    fold_right
      (fun fl s =>
         then_spec (if on fl then field_spec BUFSIZ header fl f else skip_spec) s)
      skip_spec fields pos =
    fields_spec BUFSIZ header (List.filter on fields) f pos.
Proof.
  induction fields as [|fl fields IH]; intros pos; cbn [List.filter fold_right];
    [reflexivity|].
  destruct (on fl); cbn [fields_spec].
  - apply then_spec_ext, IH.
  - rewrite then_spec_skip. apply IH.
Qed.

(** Lines 99-160 against the description of the fields whose flag is set,
    in the order of RFC 1952. *)
Lemma main_optional_refines :
  refines f 2 (main_optional BUFSIZ the_fd header)
    (fields_spec BUFSIZ header (List.filter (flag_set header) optional_fields) f).
Proof.
  eapply refines_ext; [|apply fields_spec_filter].
  unfold optional_fields, main_optional. cbn [fold_right].
  fold (block_spec BUFSIZ header f FEXTRA). fold (block_spec BUFSIZ header f FNAME).
  fold (block_spec BUFSIZ header f FCOMMENT). fold (block_spec BUFSIZ header f FHCRC).
  eapply refines_seq;
    [apply (refines_from f 0); [apply main_extra_refines; exact xlen_uint16 | lia]
    |apply main_extra_leaves |].
  eapply refines_seq;
    [apply main_filename_refines
    |apply keeps_from, keeps_main_filename |].
  eapply refines_seq;
    [apply main_comment_refines
    |apply keeps_from, keeps_main_comment |].
  eapply refines_ext; [apply main_hcrc_refines|].
  intros pos. symmetry. apply then_spec_skip_r.
Qed.

End Optional.

(** ** What the description of the fields says *)

Section Described.

Variables (BUFSIZ : Z) (header : gzip_header) (f : list byte).

(** A field that is there gives one line, the line of that field. *)
Lemma field_spec_line (fl : flag_name) (pos : Z) l p :
  fl <> FTEXT ->
  field_spec BUFSIZ header fl f pos = Parsed l p ->
  map field_of_event l = [Some fl].
Proof.
  intros Hfl. destruct fl; [contradiction|..]; cbn [field_spec]; cbv zeta;
    unfold string_field.
  - destruct (_ <? 2); intros [= <- _]; reflexivity.
  - destruct (xlen header =? 0); [discriminate|].
    destruct (_ <? xlen header); intros [= <- _]; reflexivity.
  - destruct (scan _ _); intros [= <- _]; reflexivity.
  - destruct (scan _ _); intros [= <- _]; reflexivity.
Qed.

Lemma fields_spec_lines (fields : list flag_name) :
  FTEXT ∉ fields ->
  forall pos l p,
    fields_spec BUFSIZ header fields f pos = Parsed l p ->
    map field_of_event l = map Some fields.
Proof.
  induction fields as [|fl fields IH]; intros Hin pos l p; cbn [fields_spec].
  - unfold skip_spec. intros [= <- _]. reflexivity.
  - apply not_elem_of_cons in Hin as [Hfl Hin].
    intros (l1 & p1 & l2 & H1 & H2 & ->)%then_spec_parsed.
    rewrite map_app, (field_spec_line fl pos l1 p1) by congruence.
    rewrite (IH Hin p1 l2 p H2). reflexivity.
Qed.

(** A stretch that ends in truncated input has said so in its last line. *)
Lemma field_spec_truncated (fl : flag_name) (pos : Z) l p :
  field_spec BUFSIZ header fl f pos = Truncated l p ->
  last l ≫= error_of = Some TruncatedInput.
Proof.
  destruct fl; cbn [field_spec]; cbv zeta; unfold string_field.
  - discriminate.
  - destruct (_ <? 2); intros [= <- _]; reflexivity.
  - destruct (xlen header =? 0); [discriminate|].
    destruct (_ <? xlen header); intros [= <- _]; reflexivity.
  - destruct (scan _ _); intros [= <- _]; reflexivity.
  - destruct (scan _ _); intros [= <- _]; reflexivity.
Qed.

Lemma last_app_some {A} (l1 l2 : list A) :
  last l2 <> None -> last (l1 ++ l2) = last l2.
Proof. intros Hl. rewrite last_app. destruct (last l2); [reflexivity | contradiction]. Qed.

Lemma fields_spec_truncated (fields : list flag_name) :
  forall pos l p,
    fields_spec BUFSIZ header fields f pos = Truncated l p ->
    last l ≫= error_of = Some TruncatedInput.
Proof.
  induction fields as [|fl fields IH]; intros pos l p; cbn [fields_spec];
    [discriminate|].
  unfold then_spec.
  destruct (field_spec BUFSIZ header fl f pos) as [l1 p1|l1 p1|l1 p1] eqn:H1;
    try discriminate.
  - destruct (fields_spec BUFSIZ header fields f p1) as [l2 p2|l2 p2|l2 p2] eqn:H2;
      cbn [prepend]; try discriminate.
    intros [= <- _]. pose proof (IH p1 l2 p2 H2) as Hlast.
    rewrite last_app_some; [exact Hlast|].
    destruct (last l2); [discriminate | discriminate Hlast].
  - intros [= <- _]. exact (field_spec_truncated fl pos l1 p1 H1).
Qed.

(** Only an extra field of no bytes is left unspecified. *)
Lemma fields_spec_unspecified (fields : list flag_name) :
  forall pos l p,
    fields_spec BUFSIZ header fields f pos = Unspecified l p ->
    FEXTRA ∈ fields /\ xlen header = 0.
Proof.
  induction fields as [|fl fields IH]; intros pos l p; cbn [fields_spec];
    [discriminate|].
  unfold then_spec.
  destruct (field_spec BUFSIZ header fl f pos) as [l1 p1|l1 p1|l1 p1] eqn:H1;
    try discriminate.
  - destruct (fields_spec BUFSIZ header fields f p1) as [l2 p2|l2 p2|l2 p2] eqn:H2;
      cbn [prepend]; try discriminate.
    intros _. destruct (IH p1 l2 p2 H2) as [Hin Hx].
    split; [apply elem_of_cons; right; exact Hin | exact Hx].
  - intros _. destruct fl; cbn [field_spec] in H1; cbv zeta in H1;
      unfold string_field in H1.
    + discriminate.
    + destruct (_ <? 2); discriminate.
    + destruct (Z.eqb_spec (xlen header) 0) as [Hx|_].
      * split; [apply elem_of_cons; left; reflexivity | exact Hx].
      * destruct (_ <? xlen header); discriminate.
    + destruct (scan _ _); discriminate.
    + destruct (scan _ _); discriminate.
Qed.

Lemma fields_spec_empty_extra (pos : Z) :
  flag_set header FEXTRA = true ->
  xlen header = 0 ->
  fields_spec BUFSIZ header (List.filter (flag_set header) optional_fields) f pos =
    Unspecified [] pos.
Proof.
  intros Hon Hx. unfold optional_fields. cbn [List.filter]. rewrite Hon.
  cbn [fields_spec]. unfold then_spec. cbn [field_spec]. rewrite Hx. reflexivity.
Qed.

End Described.

Lemma optional_fields_named : FTEXT ∉ optional_fields.
Proof.
  unfold optional_fields. rewrite !not_elem_of_cons.
  split_and!; try discriminate. apply not_elem_of_nil.
Qed.

Lemma filter_named (on : flag_name -> bool) (fields : list flag_name) :
  FTEXT ∉ fields -> FTEXT ∉ List.filter on fields.
Proof.
  intros Hin Hf. apply Hin.
  apply list_elem_of_In in Hf. apply filter_In in Hf as [Hf _].
  apply list_elem_of_In. exact Hf.
Qed.

Lemma filter_set (header : gzip_header) (fl : flag_name) (fields : list flag_name) :
  fl ∈ List.filter (flag_set header) fields -> flag_set header fl = true.
Proof.
  intros Hf. apply list_elem_of_In in Hf. apply filter_In in Hf as [_ Hf]. exact Hf.
Qed.

(** The block of a field whose flag is not set does nothing at all. *)
Lemma main_optional_off (BUFSIZ : Z) (header : gzip_header) :
  (flag_set header FEXTRA = false ->
   forall w0, main_extra the_fd header w0 = (Val tt, w0)) /\
  (flag_set header FNAME = false ->
   forall w0, main_filename the_fd header w0 = (Val tt, w0)) /\
  (flag_set header FCOMMENT = false ->
   forall w0, main_comment BUFSIZ the_fd header w0 = (Val tt, w0)) /\
  (flag_set header FHCRC = false ->
   forall w0, main_hcrc the_fd header w0 = (Val tt, w0)).
Proof.
  split_and!; intros Hoff w0.
  - unfold main_extra. rewrite Hoff. reflexivity.
  - unfold main_filename. rewrite Hoff. reflexivity.
  - unfold main_comment. rewrite Hoff. reflexivity.
  - unfold main_hcrc. rewrite Hoff. reflexivity.
Qed.

(** ** An extra field of no bytes *)


(** ** The arrays of the file name and the comment *)

Lemma main_filename_defined f header w :
  opened f w ->
  (main_filename the_fd header w).1 = Val tt \/
  (main_filename the_fd header w).1 = Exit (-1).
Proof.
  intros Hw. rewrite main_filename_block.
  destruct (flag_set header FNAME); [|left; reflexivity]. cbn [when].
  assert (Hseek : exists w0,
            when (negb (flag_set header FEXTRA)) (lseek the_fd (-2) SEEK_CUR ;; ret tt) w
              = (Val tt, w0) /\ opened f w0).
  { destruct (flag_set header FEXTRA); cbn [negb when].
    - exists w. split; [reflexivity | exact Hw].
    - destruct (lseek_total f w (-2) SEEK_CUR Hw) as (p & w0 & Hl & Hw0 & _).
      exists w0. rewrite (bind_val _ _ _ _ _ Hl). split; [reflexivity | exact Hw0]. }
  destruct Hseek as (w0 & Hrun & Hw0).
  rewrite (bind_val _ _ _ _ _ Hrun).
  destruct (string_block_total 128 uint8 f Filename ltac:(lia) uint8_small w0 Hw0)
    as [(s & k & _ & ->)| ->]; [left | right]; reflexivity.
Qed.

Lemma main_comment_defined BUFSIZ f header w :
  0 < BUFSIZ <= INT_MAX ->
  opened f w ->
  (main_comment BUFSIZ the_fd header w).1 = Val tt \/
  (main_comment BUFSIZ the_fd header w).1 = Exit (-1).
Proof.
  intros HB Hw. rewrite main_comment_block.
  destruct (flag_set header FCOMMENT); [|left; reflexivity]. cbn [when].
  assert (Hwrap : forall i, 0 <= i <= BUFSIZ -> uint32 i = i)
    by (intros i; apply uint32_upto; lia).
  destruct (string_block_total BUFSIZ uint32 f Comment ltac:(lia) Hwrap w Hw)
    as [(s & k & _ & ->)| ->]; [left | right]; reflexivity.
Qed.

(** C10: in both loops every store goes into the array: the loop returns
    with between one and 128 (BUFSIZ) bytes written from index 0 on, or
    leaves [main] because the stream ended, and the blocks of lines
    112-131 and 133-149 are never undefined.  When the first 128 (BUFSIZ)
    bytes of the stream hold no zero byte, the loop consumes exactly that
    many, the store after the loop puts a zero in the last byte of the
    array, and the block prints the first 127 (BUFSIZ - 1) bytes and
    leaves the offset 128 (BUFSIZ) bytes on. *)
Theorem string_arrays_in_bounds (BUFSIZ : Z) (f : list byte)
    (header : gzip_header) (w : world) :
  0 < BUFSIZ <= INT_MAX ->
  opened f w ->
  let name_loop :=
    string_loop 128 uint8 the_fd 128 (uninit 1) 0 (uninit 128) in
  let comment_loop :=
    string_loop BUFSIZ uint32 the_fd (Z.to_nat BUFSIZ) (uninit 1) 0 (uninit BUFSIZ) in
  let start := if flag_set header FEXTRA then w else set_offset (offset w - 2) w in
  ((exists bs,
      (1 <= length bs <= 128)%nat /\
      name_loop w = (Val (write (uninit 128) 0 bs),
                     set_offset (offset w + Z.of_nat (length bs)) w)) \/
   (name_loop w).1 = Exit (-1)) /\
  ((exists bs,
      (1 <= length bs <= Z.to_nat BUFSIZ)%nat /\
      comment_loop w = (Val (write (uninit BUFSIZ) 0 bs),
                        set_offset (offset w + Z.of_nat (length bs)) w)) \/
   (comment_loop w).1 = Exit (-1)) /\
  (forall t rest,
     ahead f w = t ++ rest -> x00 ∉ t -> length t = 128%nat ->
     name_loop w = (Val (Some <$> t), set_offset (offset w + 128) w) /\
     store (Some <$> t) 127 x00 = Some ((Some <$> take 127 t) ++ [Some x00]) /\
     c_string ((Some <$> take 127 t) ++ [Some x00]) = Some (take 127 t)) /\
  (forall t rest,
     ahead f w = t ++ rest -> x00 ∉ t -> Z.of_nat (length t) = BUFSIZ ->
     comment_loop w = (Val (Some <$> t), set_offset (offset w + BUFSIZ) w) /\
     store (Some <$> t) (BUFSIZ - 1) x00 =
       Some ((Some <$> take (Z.to_nat BUFSIZ - 1) t) ++ [Some x00]) /\
     c_string ((Some <$> take (Z.to_nat BUFSIZ - 1) t) ++ [Some x00]) =
       Some (take (Z.to_nat BUFSIZ - 1) t)) /\
  ((main_filename the_fd header w).1 = Val tt \/
   (main_filename the_fd header w).1 = Exit (-1)) /\
  ((main_comment BUFSIZ the_fd header w).1 = Val tt \/
   (main_comment BUFSIZ the_fd header w).1 = Exit (-1)) /\
  (forall t rest,
     flag_set header FNAME = true ->
     (flag_set header FEXTRA = false -> 2 <= offset w) ->
     ahead f start = t ++ rest -> x00 ∉ t -> length t = 128%nat ->
     main_filename the_fd header w =
       (Val tt,
        emit (Filename (take 127 t)) (set_offset (offset start + 128) w))) /\
  (forall t rest,
     flag_set header FCOMMENT = true ->
     ahead f w = t ++ rest -> x00 ∉ t -> Z.of_nat (length t) = BUFSIZ ->
     main_comment BUFSIZ the_fd header w =
       (Val tt,
        emit (Comment (take (Z.to_nat BUFSIZ - 1) t))
          (set_offset (offset w + BUFSIZ) w))).
Proof.
  intros HB Hw name_loop comment_loop start.
  assert (Hwrap : forall i, 0 <= i <= BUFSIZ -> uint32 i = i)
    by (intros i; apply uint32_upto; lia).
  split_and!.
  - exact (string_loop_in_bounds 128 uint8 f ltac:(lia) uint8_small w Hw).
  - exact (string_loop_in_bounds BUFSIZ uint32 f ltac:(lia) Hwrap w Hw).
  - intros t rest Hs Ht Hlen.
    exact (string_loop_full 128 uint8 f ltac:(lia) uint8_small w t rest
             Hw Hs Ht ltac:(lia)).
  - intros t rest Hs Ht Hlen.
    exact (string_loop_full BUFSIZ uint32 f ltac:(lia) Hwrap w t rest
             Hw Hs Ht Hlen).
  - exact (main_filename_defined f header w Hw).
  - exact (main_comment_defined BUFSIZ f header w HB Hw).
  - intros t rest Hname Hoff Hs Ht Hlen.
    destruct (main_filename_start f header w Hw Hname Hoff) as [Hstart ->].
    fold start in Hstart |- *.
    rewrite (string_block_full 128 uint8 f Filename ltac:(lia) uint8_small
               start t rest Hstart Hs Ht ltac:(lia)).
    subst start. destruct (flag_set header FEXTRA); reflexivity.
  - intros t rest Hcomment Hs Ht Hlen.
    rewrite main_comment_block, Hcomment. cbn [when].
    exact (string_block_full BUFSIZ uint32 f Comment ltac:(lia) Hwrap
             w t rest Hw Hs Ht Hlen).
Qed.

Lemma string_arrays_in_bounds_witness :
  let f := replicate 300 x41 in
  let w := World (Some f) true 2 [] in
  let header := Header 0x1f 0x8b 8 0x18 0 0 3 0 in
  (0 < 256 <= INT_MAX) /\
  opened f w /\
  string_loop 128 uint8 the_fd 128 (uninit 1) 0 (uninit 128) w =
    (Val (Some <$> replicate 128 x41), set_offset (offset w + 128) w) /\
  string_loop 256 uint32 the_fd 256 (uninit 1) 0 (uninit 256) w =
    (Val (Some <$> replicate 256 x41), set_offset (offset w + 256) w) /\
  main_filename the_fd header w =
    (Val tt, World (Some f) true 128 [Filename (replicate 127 x41)]) /\
  main_comment 256 the_fd header w =
    (Val tt, World (Some f) true 258 [Comment (replicate 255 x41)]).
Proof.
  cbv zeta.
  assert (HB : 0 < 256 <= INT_MAX) by (unfold INT_MAX; lia).
  assert (Hw : opened (replicate 300 x41) (World (Some (replicate 300 x41)) true 2 []))
    by (repeat split; cbn; lia).
  assert (Hnz : forall n, x00 ∉ replicate n x41)
    by (intros n Hin; apply elem_of_replicate in Hin as [? _]; discriminate).
  split; [exact HB|]. split; [exact Hw|].
  destruct (string_arrays_in_bounds 256 _ (Header 0x1f 0x8b 8 0x18 0 0 3 0) _ HB Hw)
    as (_ & _ & Hname & Hcomment & _ & _ & Hfile & Htext).
  split_and!.
  - apply (Hname (replicate 128 x41) (replicate 170 x41));
      [reflexivity | apply Hnz | reflexivity].
  - apply (Hcomment (replicate 256 x41) (replicate 42 x41));
      [reflexivity | apply Hnz | reflexivity].
  - rewrite (Hfile (replicate 128 x41) (replicate 172 x41));
      [reflexivity | reflexivity | intros _; cbn; lia | reflexivity | apply Hnz
      | reflexivity].
  - rewrite (Htext (replicate 256 x41) (replicate 42 x41));
      [reflexivity | reflexivity | reflexivity | apply Hnz | reflexivity].
Defined.

(** ** The width of the header fields *)

Lemma le_decode_bound (bs : list byte) :
  0 <= le_decode bs < 256 ^ Z.of_nat (length bs).
Proof.
  induction bs as [|b bs IH]; cbn [le_decode length]; [lia|].
  pose proof (byte_val_range b) as Hb.
  rewrite Nat2Z.inj_succ, Z.pow_succ_r by lia. lia.
Qed.

(** [xlen] is a [uint16_t]. *)
Lemma xlen_range (mem : list byte) : 0 <= xlen (header_of_bytes mem) < 2 ^ 16.
Proof.
  cbn [xlen header_of_bytes]. unfold field.
  pose proof (le_decode_bound (take 2 (drop 10 mem))) as Hb.
  assert (Hlen : (length (take 2 (drop 10 mem)) <= 2)%nat) by (rewrite length_take; lia).
  assert (Hpow : 256 ^ Z.of_nat (length (take 2 (drop 10 mem))) <= 256 ^ 2)
    by (apply Z.pow_le_mono_r; lia).
  change (256 ^ 2) with 65536 in Hpow. change (2 ^ 16) with 65536. lia.
Qed.

(** * Further properties of [main] *)

(** ** The fields of the structure *)

Lemma field_bound (mem : list byte) (off size : nat) :
  0 <= field mem off size < 256 ^ Z.of_nat size.
Proof.
  unfold field.
  pose proof (le_decode_bound (take size (drop off mem))) as Hb.
  assert (Hlen : (length (take size (drop off mem)) <= size)%nat)
    by (rewrite length_take; lia).
  assert (Hpow : 256 ^ Z.of_nat (length (take size (drop off mem)))
                 <= 256 ^ Z.of_nat size)
    by (apply Z.pow_le_mono_r; lia).
  lia.
Qed.

(** X1: whatever bytes the structure is read from, every field decoded
    from it lies in the range of its C type: the six [uint8_t] below 2^8,
    [mtime] below 2^32 and [xlen] below 2^16. *)
Theorem header_fields_in_range (mem : list byte) :
  let header := header_of_bytes mem in
  0 <= id1 header < 2 ^ 8 /\
  0 <= id2 header < 2 ^ 8 /\
  0 <= cm header < 2 ^ 8 /\
  0 <= flag header < 2 ^ 8 /\
  0 <= mtime header < 2 ^ 32 /\
  0 <= xfl header < 2 ^ 8 /\
  0 <= os header < 2 ^ 8 /\
  0 <= xlen header < 2 ^ 16.
Proof.
  cbv zeta. cbn [header_of_bytes id1 id2 cm flag mtime xfl os xlen].
  change (2 ^ 8) with (256 ^ Z.of_nat 1).
  change (2 ^ 32) with (256 ^ Z.of_nat 4).
  change (2 ^ 16) with (256 ^ Z.of_nat 2).
  split_and!; apply field_bound.
Qed.

(** ** The report of the header *)

Lemma emit_all_nil (w : world) : emit_all [] w = w.
Proof. destruct w. unfold emit_all. cbn. rewrite app_nil_r. reflexivity. Qed.

Lemma emits_printf (e : event) : emits (printf e) [e].
Proof. intros w. reflexivity. Qed.

Lemma emits_when (b : bool) (m : M unit) (evs : list event) :
  emits m evs -> emits (when b m) (if b then evs else []).
Proof.
  intros Hm w. destruct b; [apply Hm|]. rewrite emit_all_nil. reflexivity.
Qed.

Lemma emits_seq (m1 m2 : M unit) (evs1 evs2 : list event) :
  emits m1 evs1 -> emits m2 evs2 -> emits (m1 ;; m2) (evs1 ++ evs2).
Proof.
  intros H1 H2 w. rewrite (bind_val _ _ _ _ _ (H1 w)), H2.
  unfold emit_all. cbn [disk fd_open offset stdout]. rewrite app_assoc.
  reflexivity.
Qed.

(** Collect the lines of a block made of [printf] and [when]. *)
Ltac emitting :=
  lazymatch goal with
  | |- emits (bind _ _) _ => eapply emits_seq; emitting
  | |- emits (when _ _) _ => eapply emits_when; emitting
  | |- emits (printf _) _ => eapply emits_printf
  end.

Lemma main_report_lines (header : gzip_header) (w : world) :
  main_report header w = (Val tt, emit_all (report_lines header) w).
Proof.
  assert (Hlines : exists evs,
            emits (main_report header) evs /\ evs = report_lines header).
  { eexists. split; [unfold main_report; emitting|].
    unfold report_lines, named_flags. cbn [List.filter].
    destruct (mtime header =? 0), (flag header =? 0); cbn [negb app];
      try reflexivity.
    all: destruct (flag_set header FTEXT), (flag_set header FHCRC),
      (flag_set header FEXTRA), (flag_set header FNAME),
      (flag_set header FCOMMENT); reflexivity. }
  destruct Hlines as (evs & Hemits & ->). apply Hemits.
Qed.

(** X2: lines 77-97 never fail and touch neither the descriptor nor the
    file offset.  They print, in this order: when the flag byte is not
    zero, "flags set:", the names of those of FTEXT, FHCRC, FEXTRA, FNAME,
    FCOMMENT whose bit is set, and the closing line (so a flag byte with
    reserved bits only gives an empty list of names); when mtime is not
    zero, the creation time; the XFL line; the OS line, "UNIX" for 3 only. *)
Theorem header_report (header : gzip_header) (w : world) :
  main_report header w =
    (Val tt,
     World (disk w) (fd_open w) (offset w) (stdout w ++ report_lines header)) /\
  (flag header <> 0 ->
   List.filter (flag_set header) named_flags = [] ->
   mtime header = 0 ->
   report_lines header =
     [FlagsSet; FlagsEnd; Xfl (xfl header); Os (os header =? 0x3)]).
Proof.
  split; [apply main_report_lines|].
  intros Hflag Hnone Htime. unfold report_lines.
  rewrite Hnone, Htime. destruct (Z.eqb_spec (flag header) 0); [contradiction|].
  reflexivity.
Qed.

Lemma header_report_witness :
  let header := header_of_bytes
                  [x1f; x8b; x08; xe0; x00; x00; x00; x00; x02; x03; x00; x00] in
  main_report header (boot None) =
    (Val tt, World None false 0 [FlagsSet; FlagsEnd; Xfl 2; Os true]).
Proof.
  cbv zeta.
  destruct (header_report
              (header_of_bytes
                 [x1f; x8b; x08; xe0; x00; x00; x00; x00; x02; x03; x00; x00])
              (boot None)) as [Hrun Hlines].
  rewrite Hrun, Hlines; [reflexivity | discriminate | reflexivity | reflexivity].
Defined.

(** ** The extra field *)

(** X3: lines 99-110 with FEXTRA set.  For [xlen = 0] the array of line
    100 has no elements and the block is undefined.  For [xlen] of one or
    more and [xlen] bytes or more ahead, the block prints exactly the next
    [xlen] bytes as the extra field and moves the file offset by [xlen].
    With fewer bytes ahead, what is there is consumed, the message of the
    extra header is printed, the descriptor is closed and [main] returns
    -1. *)
Theorem extra_field_read (f : list byte) (header : gzip_header) (w : world) :
  opened f w ->
  flag_set header FEXTRA = true ->
  0 <= xlen header < 2 ^ 16 ->
  (xlen header = 0 -> main_extra the_fd header w = (Undefined, w)) /\
  (0 < xlen header ->
   xlen header <= Z.of_nat (length (ahead f w)) ->
   main_extra the_fd header w =
     (Val tt,
      emit (ExtraField (take (Z.to_nat (xlen header)) (ahead f w)))
        (set_offset (offset w + xlen header) w))) /\
  (Z.of_nat (length (ahead f w)) < xlen header ->
   main_extra the_fd header w =
     (Exit (-1),
      set_open false
        (emit TooFewExtra
           (set_offset (offset w + Z.of_nat (length (ahead f w))) w)))).
Proof.
  intros Hw Hon Hx. split_and!.
  - apply main_extra_zero. exact Hon.
  - intros Hpos Hlen. rewrite (main_extra_run f header w Hw Hon) by lia.
    destruct (Z.ltb_spec (Z.of_nat (length (ahead f w))) (xlen header)); [lia|].
    reflexivity.
  - intros Hlen. rewrite (main_extra_run f header w Hw Hon) by lia.
    destruct (Z.ltb_spec (Z.of_nat (length (ahead f w))) (xlen header)); [|lia].
    reflexivity.
Qed.

Lemma extra_field_read_witness :
  let f := [x1f; x8b; x08; x04; x00; x00; x00; x00; x00; x03; x03; x00;
            x01; x02; x03;
            xde; xad; xbe; xef; x0a; x00; x00; x00] in
  let header := header_of_bytes (take 12 f) in
  let w := World (Some f) true 12 [] in
  opened f w /\
  xlen header = 3 /\
  main_extra the_fd header w =
    (Val tt, World (Some f) true 15 [ExtraField [x01; x02; x03]]).
Proof.
  cbv zeta.
  match goal with
  | |- opened ?f ?w /\ xlen ?h = _ /\ _ =>
      destruct (extra_field_read f h w) as (_ & Hfull & _)
  end.
  - repeat split; cbn; lia.
  - reflexivity.
  - vm_compute. split; [discriminate | reflexivity].
  - split; [repeat split; cbn; lia|]. split; [reflexivity|].
    rewrite Hfull; [reflexivity | reflexivity | vm_compute; discriminate].
Defined.

(** ** The comment *)

(** X4: with FCOMMENT set, lines 133-149 read the comment from the file
    offset on, with no retreat.  A zero byte within the first [BUFSIZ]
    bytes ends it: the comment printed is what stands before the zero byte
    and the offset is just past it.  [BUFSIZ] bytes without a zero byte
    are all consumed and the first [BUFSIZ - 1] of them are printed.  A
    stream that ends before either is reported with the message of the
    file name (the source prints "... while reading filename!" here too),
    the descriptor is closed and [main] returns -1. *)
Theorem comment_read (BUFSIZ : Z) (f : list byte) (header : gzip_header)
    (w : world) :
  0 < BUFSIZ <= INT_MAX ->
  opened f w ->
  flag_set header FCOMMENT = true ->
  (forall t rest,
     ahead f w = t ++ x00 :: rest -> x00 ∉ t -> Z.of_nat (length t) < BUFSIZ ->
     main_comment BUFSIZ the_fd header w =
       (Val tt,
        emit (Comment t) (set_offset (offset w + Z.of_nat (length t) + 1) w))) /\
  (forall t rest,
     ahead f w = t ++ rest -> x00 ∉ t -> Z.of_nat (length t) = BUFSIZ ->
     main_comment BUFSIZ the_fd header w =
       (Val tt,
        emit (Comment (take (Z.to_nat BUFSIZ - 1) t))
          (set_offset (offset w + BUFSIZ) w))) /\
  (x00 ∉ ahead f w -> Z.of_nat (length (ahead f w)) < BUFSIZ ->
   main_comment BUFSIZ the_fd header w =
     (Exit (-1),
      set_open false
        (emit TooFewFilename
           (set_offset (offset w + Z.of_nat (length (ahead f w))) w)))).
Proof.
  intros HB Hw Hon. rewrite main_comment_block, Hon. cbn [when].
  assert (Hwrap : forall i, 0 <= i <= BUFSIZ -> uint32 i = i)
    by (intros i; apply uint32_upto; lia).
  split_and!.
  - intros t rest Hs Ht Hlen.
    apply (string_block_terminated BUFSIZ uint32 f Comment ltac:(lia) Hwrap
             w t rest Hw Hs Ht Hlen).
  - intros t rest Hs Ht Hlen.
    apply (string_block_full BUFSIZ uint32 f Comment ltac:(lia) Hwrap
             w t rest Hw Hs Ht Hlen).
  - intros Hs Hlen.
    apply (string_block_short BUFSIZ uint32 f Comment ltac:(lia) Hwrap
             w Hw Hs Hlen).
Qed.

Lemma comment_read_witness :
  let f := [x1f; x8b; x08; x10; x00; x00; x00; x00; x00; x03; x00; x00;
            x68; x69; x00;
            xde; xad; xbe; xef; x0a; x00; x00; x00] in
  let header := header_of_bytes (take 12 f) in
  let w := World (Some f) true 12 [] in
  (0 < 8192 <= INT_MAX) /\
  opened f w /\
  main_comment 8192 the_fd header w =
    (Val tt, World (Some f) true 15 [Comment [x68; x69]]).
Proof.
  cbv zeta.
  assert (HB : 0 < 8192 <= INT_MAX) by (unfold INT_MAX; lia).
  split; [exact HB|].
  match goal with
  | |- opened ?f ?w /\ main_comment _ _ ?h _ = _ =>
      destruct (comment_read 8192 f h w HB) as [Hzero _]
  end.
  - repeat split; cbn; lia.
  - reflexivity.
  - split; [repeat split; cbn; lia|].
    apply (Hzero [x68; x69] [xde; xad; xbe; xef; x0a; x00; x00; x00]).
    + reflexivity.
    + rewrite !not_elem_of_cons. repeat split; try discriminate. apply not_elem_of_nil.
    + cbn. lia.
Defined.

(** ** The header checksum *)

(** X5: with FHCRC set and two bytes or more ahead, lines 151-160 print
    the little-endian value of the next two bytes and move the offset by
    two; nothing is checked against the header.  With fewer than two
    bytes ahead they are consumed, the message of the header checksum is
    printed, the descriptor is closed and [main] returns -1. *)
Theorem header_checksum_read (f : list byte) (header : gzip_header) (w : world) :
  opened f w ->
  flag_set header FHCRC = true ->
  (forall b0 b1 rest,
     ahead f w = b0 :: b1 :: rest ->
     main_hcrc the_fd header w =
       (Val tt,
        emit (HeaderChecksum (byte_val b0 + 256 * byte_val b1))
          (set_offset (offset w + 2) w))) /\
  ((length (ahead f w) < 2)%nat ->
   main_hcrc the_fd header w =
     (Exit (-1),
      set_open false
        (emit TooFewHcrc
           (set_offset (offset w + Z.of_nat (length (ahead f w))) w)))).
Proof.
  intros Hw Hon. unfold main_hcrc. rewrite Hon. cbn [when]. cbv zeta.
  assert (Hoff : 0 <= offset w) by (destruct Hw as (_ & _ & ?); assumption).
  pose proof (read_opened f w (uninit 2) 2 Hw) as Hread.
  cbn zeta in Hread. rewrite (bind_val _ _ _ _ _ Hread). cbn [fst snd].
  change (Z.to_nat 2) with 2%nat.
  split.
  - intros b0 b1 rest Hs. rewrite Hs.
    change (take 2 (b0 :: b1 :: rest)) with [b0; b1]. cbn [length].
    change (uint32 (Z.of_nat 2) <? 2) with false. cbv iota.
    rewrite overlay_all by (rewrite length_uninit; cbn; lia).
    unfold bind, load. rewrite defined_Some. cbn [ret printf le_decode].
    rewrite Z.mul_0_r, Z.add_0_r. reflexivity.
  - intros Hlen. rewrite take_ge by lia.
    rewrite uint32_small by (change (2 ^ 32) with 4294967296; lia).
    destruct (Z.ltb_spec (Z.of_nat (length (ahead f w))) 2) as [_|?]; [|lia].
    apply (too_few_exit f).
    apply opened_set_offset; [exact Hw | lia].
Qed.

Lemma header_checksum_read_witness :
  let f := [x1f; x8b; x08; x02; x00; x00; x00; x00; x00; x03; x00; x00;
            xaa; xbb;
            xde; xad; xbe; xef; x0a; x00; x00; x00] in
  let header := header_of_bytes (take 12 f) in
  let w := World (Some f) true 12 [] in
  opened f w /\
  main_hcrc the_fd header w =
    (Val tt, World (Some f) true 14 [HeaderChecksum 0xbbaa]).
Proof.
  cbv zeta.
  match goal with
  | |- opened ?f ?w /\ main_hcrc _ ?h _ = _ =>
      destruct (header_checksum_read f h w) as [Hfull _]
  end.
  - repeat split; cbn; lia.
  - reflexivity.
  - split; [repeat split; cbn; lia|].
    apply (Hfull xaa xbb [xde; xad; xbe; xef; x0a; x00; x00; x00]). reflexivity.
Defined.

(** ** The optional fields, all of them *)

(** X16: lines 99-160 do what the description of the optional fields
    says, for every flag byte, every [xlen] and every file.  The fields
    read are those whose flag bit is set, in the order extra field, file
    name, comment, header checksum, each from where the one before it
    ended: the lines printed, the bytes they show and the offset reached
    are those of [fields_spec].  When every field is there, one line per
    set field is printed, in that order.  When the stream ends inside a
    field, the lines of the fields before it are followed by the message
    of truncated input, the descriptor is closed and [main] returns -1.
    Only an extra field of no bytes (FEXTRA set, [xlen = 0]) leaves the
    run undefined.  The block of a field whose bit is not set returns at
    once with the world as it was. *)
Theorem optional_fields_as_specified (BUFSIZ : Z) (f : list byte)
    (header : gzip_header) (w : world) :
  0 < BUFSIZ <= INT_MAX ->
  0 <= xlen header < 2 ^ 16 ->
  opened f w ->
  2 <= offset w ->
  let fields := List.filter (flag_set header) optional_fields in
  let described := fields_spec BUFSIZ header fields f (offset w) in
  main_optional BUFSIZ the_fd header w = outcome f (stdout w) described /\
  (forall l p,
     described = Parsed l p -> map field_of_event l = map Some fields) /\
  (forall l p,
     described = Truncated l p -> last l ≫= error_of = Some TruncatedInput) /\
  (forall l p,
     described = Unspecified l p ->
     flag_set header FEXTRA = true /\ xlen header = 0) /\
  (flag_set header FEXTRA = false ->
   forall w0, main_extra the_fd header w0 = (Val tt, w0)) /\
  (flag_set header FNAME = false ->
   forall w0, main_filename the_fd header w0 = (Val tt, w0)) /\
  (flag_set header FCOMMENT = false ->
   forall w0, main_comment BUFSIZ the_fd header w0 = (Val tt, w0)) /\
  (flag_set header FHCRC = false ->
   forall w0, main_hcrc the_fd header w0 = (Val tt, w0)).
Proof.
  intros HB Hx Hw Hlo fields described. subst described fields.
  split; [exact (main_optional_refines BUFSIZ f header HB Hx w Hw Hlo)|].
  split; [|split; [|split]].
  - apply fields_spec_lines, filter_named, optional_fields_named.
  - apply fields_spec_truncated.
  - intros l p Hu. apply fields_spec_unspecified in Hu as [Hin Hz].
    split; [exact (filter_set header FEXTRA _ Hin) | exact Hz].
  - apply main_optional_off.
Qed.

Lemma optional_fields_as_specified_witness :
  let f := [x1f; x8b; x08; x1e; x00; x00; x00; x00; x00; x03; x03; x00;
            x01; x02; x03;
            x41; x00;
            x42; x43; x00;
            xaa; xbb;
            xde; xad; xbe; xef; x0a; x00; x00; x00] in
  let g := [x1f; x8b; x08; x18; x00; x00; x00; x00; x00; x03;
            x41; x00;
            x42; x43] in
  (0 < 8192 <= INT_MAX) /\
  main_optional 8192 the_fd (header_of_bytes (take 12 f)) (World (Some f) true 12 []) =
    (Val tt,
     World (Some f) true 22
       [ExtraField [x01; x02; x03]; Filename [x41]; Comment [x42; x43];
        HeaderChecksum 0xbbaa]) /\
  main_optional 8192 the_fd (header_of_bytes (take 12 g)) (World (Some g) true 12 []) =
    (Exit (-1), World (Some g) false 14 [Filename [x41]; TooFewFilename]).
Proof.
  cbv zeta.
  assert (HB : 0 < 8192 <= INT_MAX) by (unfold INT_MAX; lia).
  split; [exact HB|]. split.
  - match goal with
    | |- main_optional _ _ ?h (World (Some ?f) ?o ?p ?q) = _ =>
        destruct (optional_fields_as_specified 8192 f h (World (Some f) o p q) HB)
          as [Hrun _]
    end.
    + vm_compute. split; [discriminate | reflexivity].
    + repeat split; cbn; lia.
    + cbn. lia.
    + rewrite Hrun. vm_compute. reflexivity.
  - match goal with
    | |- main_optional _ _ ?h (World (Some ?f) ?o ?p ?q) = _ =>
        destruct (optional_fields_as_specified 8192 f h (World (Some f) o p q) HB)
          as [Hrun _]
    end.
    + vm_compute. split; [discriminate | reflexivity].
    + repeat split; cbn; lia.
    + cbn. lia.
    + rewrite Hrun. vm_compute. reflexivity.
Defined.

(** ** The trailer block on its own *)

(** X6: on an open descriptor lines 166-188 do not depend on the file
    offset they start from.  On a file of eight bytes or more they print
    the little-endian values of the last eight bytes, leave the offset at
    the end of the file, close the descriptor and run to the end of
    [main].  On a shorter file the seek fails: its message is printed, the
    offset stays, the descriptor is closed and [main] returns -1. *)
Theorem trailer_block (f : list byte) (w : world) :
  opened f w ->
  ((8 <= length f)%nat ->
   let last8 := drop (length f - 8) f in
   main_trailer the_fd w =
     (Val tt,
      World (Some f) false (Z.of_nat (length f))
        (stdout w ++ [Checksum (le_decode (take 4 last8));
                       Isize (le_decode (drop 4 last8))]))) /\
  ((length f < 8)%nat ->
   main_trailer the_fd w = (Exit (-1), set_open false (emit SeekError w))).
Proof.
  intros Hw. split; intros Hlen.
  - apply (main_trailer_opened f w Hw Hlen).
  - unfold main_trailer, bind at 1, lseek.
    rewrite (valid_fd_opened f w Hw). destruct Hw as (Hd & Hop & Hoff) eqn:Hw'.
    rewrite Hd. cbv zeta.
    destruct (Z.ltb_spec (Z.of_nat (length f) + -8) 0) as [_|?]; [|lia].
    change (-1 =? -1) with true. cbv iota.
    apply (too_few_exit f). repeat split; assumption.
Qed.

Lemma trailer_block_witness :
  let f := [x1f; x8b; x08; x00; x00] in
  let w := World (Some f) true 3 [] in
  opened f w /\
  main_trailer the_fd w = (Exit (-1), World (Some f) false 3 [SeekError]).
Proof.
  cbv zeta.
  match goal with
  | |- opened ?f ?w /\ _ => destruct (trailer_block f w) as [_ Hshort]
  end.
  - repeat split; cbn; lia.
  - split; [repeat split; cbn; lia|]. apply Hshort. cbn. lia.
Defined.

(** ** Files without optional fields *)

Lemma flag_zero (header : gzip_header) (fl : flag_name) :
  flag header = 0 -> flag_set header fl = false.
Proof. intros Hz. unfold flag_set. rewrite Hz, Z.land_0_l. reflexivity. Qed.

Lemma flag_of_file (f : list byte) :
  (12 <= length f)%nat ->
  f !! 3%nat = Some x00 ->
  flag (header_of_bytes (take 12 f)) = 0.
Proof.
  intros Hlen.
  destruct f as [|b0 [|b1 [|b2 [|b3 f]]]]; [simpl in Hlen; lia..|].
  cbn [take header_of_bytes flag field drop le_decode lookup list_lookup].
  rewrite take_0. cbn [le_decode]. intros [= ->]. reflexivity.
Qed.

Lemma main_optional_plain BUFSIZ fd header w :
  flag header = 0 -> main_optional BUFSIZ fd header w = (Val tt, w).
Proof.
  intros Hz.
  unfold main_optional, main_extra, main_filename, main_comment, main_hcrc.
  rewrite !(flag_zero header) by exact Hz. reflexivity.
Qed.

Lemma main_plain (BUFSIZ : Z) (f : list byte) :
  (12 <= length f)%nat ->
  take 2 f = [x1f; x8b] ->
  f !! 3%nat = Some x00 ->
  let header := header_of_bytes (take 12 f) in
  let last8 := drop (length f - 8) f in
  main BUFSIZ 2 (boot (Some f)) =
    (Val tt,
     World (Some f) false (Z.of_nat (length f))
       (ValidGzip :: (if cm header =? 0x8 then [Deflate] else []) ++
        report_lines header ++
        [Checksum (le_decode (take 4 last8)); Isize (le_decode (drop 4 last8))])).
Proof.
  intros Hlen Hmagic Hflag header last8.
  pose proof (flag_of_file f Hlen Hflag) as Hz. fold header in Hz.
  apply (magic_of_file f Hlen) in Hmagic. fold header in Hmagic.
  rewrite main_long by exact Hlen. fold header.
  set (w0 := World (Some f) true 12 []).
  assert (Hw0 : opened f w0) by (repeat split; cbn; lia).
  repeat rewrite bind_assoc.
  rewrite (bind_val (main_magic header) _ w0 (emit ValidGzip w0) tt)
    by (unfold main_magic; rewrite Hmagic; reflexivity).
  cbv beta. repeat rewrite bind_assoc.
  set (w1 := emit_all (if cm header =? 0x8 then [Deflate] else []) (emit ValidGzip w0)).
  assert (Hmethod : main_method header (emit ValidGzip w0) = (Val tt, w1)).
  { unfold main_method, w1. destruct (cm header =? 0x8); reflexivity. }
  rewrite (bind_val _ _ _ _ _ Hmethod). cbv beta. repeat rewrite bind_assoc.
  rewrite (bind_val _ _ _ _ _ (main_report_lines header w1)). cbv beta.
  rewrite (bind_val _ _ _ _ _ (main_optional_plain BUFSIZ the_fd header _ Hz)).
  assert (Hw3 : opened f (emit_all (report_lines header) w1))
    by (repeat split; cbn; lia).
  rewrite (main_trailer_opened f _ Hw3) by lia.
  unfold w1, w0, emit_all, emit. cbn [disk fd_open offset stdout app].
  repeat rewrite <- app_assoc. reflexivity.
Qed.

(** X8: for every file of twelve bytes or more that starts with the magic
    bytes and has flag byte zero, [main] returns at its end with the
    descriptor closed, and its whole output is: "valid gzip file"; the
    line of the method when it is 8; the creation time when mtime is not
    zero; the XFL and OS lines; the checksum and the size decoded from the
    last eight bytes of the file. *)
Theorem plain_file_output (BUFSIZ : Z) (f : list byte) :
  (12 <= length f)%nat ->
  take 2 f = [x1f; x8b] ->
  f !! 3%nat = Some x00 ->
  let header := header_of_bytes (take 12 f) in
  let last8 := drop (length f - 8) f in
  main BUFSIZ 2 (boot (Some f)) =
    (Val tt,
     World (Some f) false (Z.of_nat (length f))
       (ValidGzip :: (if cm header =? 0x8 then [Deflate] else []) ++
        (if mtime header =? 0 then [] else [CreationTime (mtime header)]) ++
        [Xfl (xfl header); Os (os header =? 0x3);
         Checksum (le_decode (take 4 last8)); Isize (le_decode (drop 4 last8))])).
Proof.
  intros Hlen Hmagic Hflag header last8.
  rewrite (main_plain BUFSIZ f Hlen Hmagic Hflag). fold header last8.
  pose proof (flag_of_file f Hlen Hflag) as Hz. fold header in Hz.
  unfold report_lines. rewrite Hz. cbn [Z.eqb app].
  rewrite <- app_assoc. reflexivity.
Qed.

Lemma plain_file_output_witness :
  let f := [x1f; x8b; x08; x00; x01; x00; x00; x00; x00; x03; x00; x00;
            xde; xad; xbe; xef; x0a; x00; x00; x00] in
  main 8192 2 (boot (Some f)) =
    (Val tt,
     World (Some f) false 20
       [ValidGzip; Deflate; CreationTime 1; Xfl 0; Os true;
        Checksum 4022250974; Isize 10]).
Proof.
  cbv zeta.
  match goal with
  | |- main _ _ (boot (Some ?f)) = _ =>
      rewrite (plain_file_output 8192 f)
  end.
  - reflexivity.
  - cbn. lia.
  - reflexivity.
  - reflexivity.
Defined.

(** X9: nothing keeps the trailer apart from the header.  For a file of
    exactly twelve bytes with the magic bytes and flag byte zero, the last
    eight bytes are bytes 4 to 11 of the header: the checksum printed is
    the mtime field, and the size printed is made of xfl, os and xlen. *)
Theorem twelve_byte_file_trailer_is_header (BUFSIZ : Z) (f : list byte) :
  length f = 12%nat ->
  take 2 f = [x1f; x8b] ->
  f !! 3%nat = Some x00 ->
  let header := header_of_bytes f in
  exists out,
    main BUFSIZ 2 (boot (Some f)) =
      (Val tt,
       World (Some f) false 12
         (out ++ [Checksum (mtime header);
                  Isize (xfl header + 256 * os header + 65536 * xlen header)])).
Proof.
  intros Hlen Hmagic Hflag header.
  rewrite (main_plain BUFSIZ f ltac:(lia) Hmagic Hflag). cbv zeta.
  rewrite Hlen. change (12 - 8)%nat with 4%nat.
  rewrite (take_ge f 12) by lia. fold header.
  exists (ValidGzip :: (if cm header =? 0x8 then [Deflate] else []) ++
          report_lines header).
  assert (Hc : le_decode (take 4 (drop 4 f)) = mtime header) by reflexivity.
  assert (Hs : le_decode (drop 4 (drop 4 f)) =
               xfl header + 256 * os header + 65536 * xlen header).
  { subst header. clear Hmagic Hflag.
    do 13 (destruct f as [|? f]; try (cbn [length] in Hlen; lia)).
    cbn [header_of_bytes xfl os xlen field drop take le_decode]. lia. }
  rewrite Hc, Hs. cbn [app]. rewrite <- app_assoc. reflexivity.
Qed.

Lemma twelve_byte_file_trailer_is_header_witness :
  let f := [x1f; x8b; x08; x00; x78; x56; x34; x12; x02; x03; x00; x00] in
  exists out,
    main 8192 2 (boot (Some f)) =
      (Val tt,
       World (Some f) false 12 (out ++ [Checksum 0x12345678; Isize 0x0302])).
Proof.
  cbv zeta.
  match goal with
  | |- exists out, main _ _ (boot (Some ?f)) = _ =>
      destruct (twelve_byte_file_trailer_is_header 8192 f) as [out Hrun]
  end.
  - reflexivity.
  - reflexivity.
  - reflexivity.
  - exists out. exact Hrun.
Defined.

(** ** Every run ends, and how *)

Lemma last_report_lines (header : gzip_header) :
  last (report_lines header) = Some (Os (os header =? 0x3)).
Proof. unfold report_lines. rewrite !last_app. reflexivity. Qed.

(** A file of twelve bytes or more with the magic bytes: what is printed
    before the optional fields, and what is left to do. *)
Lemma main_after_magic (BUFSIZ : Z) (f : list byte) :
  (12 <= length f)%nat ->
  take 2 f = [x1f; x8b] ->
  let header := header_of_bytes (take 12 f) in
  let w := World (Some f) true 12
             (ValidGzip :: (if cm header =? 0x8 then [Deflate] else []) ++
              report_lines header) in
  main BUFSIZ 2 (boot (Some f)) =
    (main_optional BUFSIZ the_fd header ;; main_trailer the_fd) w.
Proof.
  intros Hlen Hmagic header w.
  apply (magic_of_file f Hlen) in Hmagic. fold header in Hmagic.
  rewrite main_long by exact Hlen. fold header.
  set (w0 := World (Some f) true 12 []).
  repeat rewrite bind_assoc.
  rewrite (bind_val (main_magic header) _ w0 (emit ValidGzip w0) tt)
    by (unfold main_magic; rewrite Hmagic; reflexivity).
  cbv beta. repeat rewrite bind_assoc.
  set (w1 := emit_all (if cm header =? 0x8 then [Deflate] else []) (emit ValidGzip w0)).
  assert (Hmethod : main_method header (emit ValidGzip w0) = (Val tt, w1)).
  { unfold main_method, w1. destruct (cm header =? 0x8); reflexivity. }
  rewrite (bind_val _ _ _ _ _ Hmethod). cbv beta. repeat rewrite bind_assoc.
  rewrite (bind_val _ _ _ _ _ (main_report_lines header w1)). cbv beta.
  replace (emit_all (report_lines header) w1) with w; [reflexivity|].
  unfold w, w1, w0, emit_all, emit. cbn [disk fd_open offset stdout app].
  reflexivity.
Qed.

(** What a run of [main] on any file comes to.  It ends with the trailer
    printed and the descriptor closed; or with truncated input reported
    and the descriptor closed; or with invalid magic reported, and then
    the descriptor, if the file could be opened, is still open; or it is
    undefined after the report of the header, and that for an extra field
    of no bytes only.  No loop is short of fuel, and on a regular file the
    seek to the trailer does not fail. *)
Lemma main_outcomes (BUFSIZ : Z) (d : option (list byte)) :
  0 < BUFSIZ <= INT_MAX ->
  let run := main BUFSIZ 2 (boot d) in
  (run.1 = Val tt /\ fd_open run.2 = false /\
   exists out c n, stdout run.2 = out ++ [Checksum c; Isize n]) \/
  (run.1 = Exit (-1) /\ failure run = Some TruncatedInput /\
   fd_open run.2 = false) \/
  (run.1 = Exit (-1) /\ failure run = Some InvalidMagic /\
   (fd_open run.2 = true <-> d <> None)) \/
  (run.1 = Undefined /\ fd_open run.2 = true /\
   (exists unix, last (stdout run.2) = Some (Os unix)) /\
   exists f,
     d = Some f /\ (12 <= length f)%nat /\ take 2 f = [x1f; x8b] /\
     flag_set (header_of_bytes (take 12 f)) FEXTRA = true /\
     xlen (header_of_bytes (take 12 f)) = 0).
Proof.
  intros HB run.
  assert (Hrun : run = main BUFSIZ 2 (boot d)) by reflexivity. clearbody run.
  destruct d as [f|].
  2:{ right. right. left. rewrite main_unopenable in Hrun. subst run. cbn.
      split_and!; try reflexivity. split; [discriminate | congruence]. }
  destruct (le_lt_dec 12 (length f)) as [Hlen|Hlen].
  2:{ right. left. rewrite main_short in Hrun by exact Hlen. subst run.
      split_and!; reflexivity. }
  destruct ((id1 (header_of_bytes (take 12 f)) =? 0x1f) &&
            (id2 (header_of_bytes (take 12 f)) =? 0x8b)) eqn:Hmagic.
  2:{ right. right. left.
      rewrite main_long in Hrun by exact Hlen. cbn zeta in Hrun.
      unfold bind at 1 2 in Hrun. unfold main_magic in Hrun.
      rewrite Hmagic in Hrun. subst run. cbn.
      split_and!; try reflexivity. split; [discriminate | reflexivity]. }
  apply (magic_of_file f Hlen) in Hmagic.
  rewrite (main_after_magic BUFSIZ f Hlen Hmagic) in Hrun. cbv zeta in Hrun.
  set (header := header_of_bytes (take 12 f)) in *.
  set (w := World (Some f) true 12 _) in Hrun.
  assert (Hw : opened f w) by (repeat split; cbn; lia).
  pose proof (xlen_range (take 12 f)) as Hx. fold header in Hx.
  pose proof (main_optional_refines BUFSIZ f header HB Hx w Hw ltac:(cbn; lia))
    as Hopt.
  destruct (fields_spec BUFSIZ header
              (List.filter (flag_set header) optional_fields) f (offset w))
    as [l p|l p|l p] eqn:Hspec; cbn [outcome] in Hopt.
  - left. rewrite (bind_val _ _ _ _ _ Hopt) in Hrun.
    pose proof (keeps_main_optional f BUFSIZ the_fd header w tt _ Hw Hopt) as Hw'.
    rewrite (main_trailer_opened f _ Hw') in Hrun by lia. subst run.
    cbn [fst snd fd_open stdout].
    split_and!; try reflexivity. eauto.
  - right. left. rewrite (bind_exit _ _ _ _ _ Hopt) in Hrun. subst run.
    pose proof (fields_spec_truncated _ _ _ _ _ _ _ Hspec) as Hlast.
    unfold failure. cbn [fst snd stdout fd_open].
    split_and!; try reflexivity.
    rewrite last_app_some; [exact Hlast|].
    destruct (last l); [discriminate | discriminate Hlast].
  - right. right. right.
    destruct (fields_spec_unspecified _ _ _ _ _ _ _ Hspec) as [Hin Hz].
    pose proof (filter_set header FEXTRA _ Hin) as Hon.
    rewrite (fields_spec_empty_extra BUFSIZ header f _ Hon Hz) in Hspec.
    injection Hspec as <- <-.
    unfold bind in Hrun. rewrite Hopt in Hrun. subst run.
    cbn [fst snd fd_open stdout offset w]. rewrite app_nil_r.
    split_and!; try reflexivity.
    + exists (os header =? 0x3).
      change (ValidGzip :: ?a ++ ?b) with ([ValidGzip] ++ a ++ b).
      rewrite !last_app, last_report_lines. reflexivity.
    + exists f. split_and!; first [reflexivity | assumption].
Qed.

(** X10: [main] has one undefined behaviour, the array of no elements of
    line 100: a run is undefined exactly when the file has twelve bytes
    or more, starts with the magic bytes, has FEXTRA set and [xlen = 0].
    Every other run, also on a file that cannot be opened, ends with
    status 0 or -1.  [main] returns 0 exactly when the last two lines
    printed are the checksum and the size of the trailer.  When a defined
    run ends with the descriptor still open, it ended at the magic
    check. *)
Theorem main_defined_unless_empty_extra (BUFSIZ : Z) (d : option (list byte)) :
  0 < BUFSIZ <= INT_MAX ->
  let run := main BUFSIZ 2 (boot d) in
  let empty_extra :=
    exists f,
      d = Some f /\ (12 <= length f)%nat /\ take 2 f = [x1f; x8b] /\
      flag_set (header_of_bytes (take 12 f)) FEXTRA = true /\
      xlen (header_of_bytes (take 12 f)) = 0 in
  (run.1 = Undefined <-> empty_extra) /\
  (run.1 = Val tt \/ run.1 = Exit (-1) \/ run.1 = Undefined) /\
  (run.1 = Val tt <->
   exists out c n, stdout run.2 = out ++ [Checksum c; Isize n]) /\
  (fd_open run.2 = true -> failure run = Some InvalidMagic \/ run.1 = Undefined).
Proof.
  intros HB run empty_extra.
  assert (Hlast : forall out c n,
            stdout run.2 = out ++ [Checksum c; Isize n] ->
            forall err, failure run = Some err -> False).
  { intros out c n Hout err. unfold failure.
    destruct run.1; try discriminate.
    rewrite Hout, last_app. discriminate. }
  assert (Hempty : empty_extra -> run.1 = Undefined).
  { intros (f & -> & Hlen & Hmagic & Hon & Hz). subst run.
    rewrite (main_after_magic BUFSIZ f Hlen Hmagic). cbv zeta.
    unfold bind at 1, main_optional, bind at 1.
    rewrite (main_extra_zero _ _ _ Hon Hz). reflexivity. }
  destruct (main_outcomes BUFSIZ d HB)
    as [(Hr & Hc & Hout)|[(Hr & Hf & Hc)|[(Hr & Hf & Hc)|(Hr & Hc & Hos & He)]]];
    fold run in Hr, Hc.
  - fold run in Hout. split_and!.
    + split; [rewrite Hr; discriminate|].
      intros He. rewrite (Hempty He) in Hr. discriminate.
    + left. exact Hr.
    + split; [intros _; exact Hout | intros _; exact Hr].
    + rewrite Hc. discriminate.
  - fold run in Hf. split_and!.
    + split; [rewrite Hr; discriminate|].
      intros He. rewrite (Hempty He) in Hr. discriminate.
    + right. left. exact Hr.
    + split; [rewrite Hr; discriminate|].
      intros (out & c & n & Hout). destruct (Hlast out c n Hout _ Hf).
    + rewrite Hc. discriminate.
  - fold run in Hf. split_and!.
    + split; [rewrite Hr; discriminate|].
      intros He. rewrite (Hempty He) in Hr. discriminate.
    + right. left. exact Hr.
    + split; [rewrite Hr; discriminate|].
      intros (out & c & n & Hout). destruct (Hlast out c n Hout _ Hf).
    + intros _. left. exact Hf.
  - fold run in Hos. split_and!.
    + split; [intros _; exact He | intros _; exact Hr].
    + right. right. exact Hr.
    + split; [rewrite Hr; discriminate|].
      intros (out & c & n & Hout). destruct Hos as [unix Hos].
      rewrite Hout, last_app in Hos. discriminate.
    + intros _. right. exact Hr.
Qed.

Lemma main_defined_unless_empty_extra_witness :
  let f := [x1f; x8b; x08; x04; x00; x00; x00; x00; x00; x03; x00; x00;
            xde; xad; xbe; xef; x0a; x00; x00; x00] in
  let run := main 8192 2 (boot (Some f)) in
  (0 < 8192 <= INT_MAX) /\
  run.1 = Undefined /\
  (run.1 = Val tt \/ run.1 = Exit (-1) \/ run.1 = Undefined) /\
  (run.1 = Val tt <->
   exists out c n, stdout run.2 = out ++ [Checksum c; Isize n]) /\
  (fd_open run.2 = true -> failure run = Some InvalidMagic \/ run.1 = Undefined).
Proof.
  cbv zeta.
  assert (HB : 0 < 8192 <= INT_MAX) by (unfold INT_MAX; lia).
  split; [exact HB|].
  match goal with
  | |- (main _ _ (boot ?d)).1 = _ /\ _ =>
      destruct (main_defined_unless_empty_extra 8192 d HB) as (Hu & Hrest)
  end.
  split; [|exact Hrest].
  apply Hu. eexists. split; [reflexivity|].
  split; [cbn; lia|]. split; [reflexivity|]. split; vm_compute; reflexivity.
Defined.

(** ** The bits of the flag byte that name no optional field *)

Lemma land_bit (a k : Z) :
  0 <= k -> (Z.land a (Z.shiftl 1 k) =? 0) = negb (Z.testbit a k).
Proof.
  intros Hk. rewrite Z.shiftl_1_l.
  destruct (Z.testbit a k) eqn:Hb; cbn [negb].
  - apply Z.eqb_neq. intros Hz.
    assert (Hbit : Z.testbit (Z.land a (2 ^ k)) k = true)
      by (rewrite Z.land_spec, Hb, Z.pow2_bits_true by exact Hk; reflexivity).
    rewrite Hz, Z.bits_0 in Hbit. discriminate.
  - apply Z.eqb_eq. apply Z.bits_inj'. intros n Hn.
    rewrite Z.land_spec, Z.bits_0, Z.pow2_bits_eqb by exact Hk.
    destruct (Z.eqb_spec k n) as [->|_]; [rewrite Hb; reflexivity|].
    apply andb_false_r.
Qed.

Lemma flag_set_testbit (header : gzip_header) (fl : flag_name) :
  flag_set header fl = Z.testbit (flag header) (flag_bit fl).
Proof.
  unfold flag_set. rewrite land_bit by (destruct fl; cbn; lia).
  apply negb_involutive.
Qed.

Lemma flag_set_masked (h h' : gzip_header) (fl : flag_name) :
  Z.land (flag h) 0x1e = Z.land (flag h') 0x1e ->
  fl <> FTEXT ->
  flag_set h fl = flag_set h' fl.
Proof.
  intros Hmask Hfl. rewrite !flag_set_testbit.
  assert (Hbit : Z.testbit 0x1e (flag_bit fl) = true)
    by (destruct fl; [contradiction|reflexivity..]).
  assert (Hh : forall a, Z.testbit a (flag_bit fl) =
                         Z.testbit (Z.land a 0x1e) (flag_bit fl))
    by (intros a; rewrite Z.land_spec, Hbit, andb_true_r; reflexivity).
  rewrite (Hh (flag h)), (Hh (flag h')), Hmask. reflexivity.
Qed.

(** X11: the optional fields are read according to bits 1 to 4 of the flag
    byte and to [xlen] alone: two headers that agree on these read the
    same fields from the same world, whatever FTEXT, the reserved bits 5
    to 7 and the other header fields are. *)
Theorem optional_fields_ignore_other_bits (BUFSIZ fd : Z)
    (h h' : gzip_header) (w : world) :
  Z.land (flag h) 0x1e = Z.land (flag h') 0x1e ->
  xlen h = xlen h' ->
  main_optional BUFSIZ fd h w = main_optional BUFSIZ fd h' w.
Proof.
  intros Hmask Hx.
  unfold main_optional, main_extra, main_filename, main_comment, main_hcrc.
  rewrite (flag_set_masked h h' FEXTRA Hmask), (flag_set_masked h h' FNAME Hmask),
    (flag_set_masked h h' FCOMMENT Hmask), (flag_set_masked h h' FHCRC Hmask), Hx
    by discriminate.
  reflexivity.
Qed.

Lemma optional_fields_ignore_other_bits_witness :
  let f := [x1f; x8b; x08; x08; x00; x00; x00; x00; x00; x03;
            x74; x65; x73; x74; x00] in
  let h := header_of_bytes (take 12 f) in
  let h' := header_of_bytes
              [x1f; x8b; x08; xe9; x01; x02; x03; x04; x05; x06; x74; x65] in
  let w := World (Some f) true 12 [] in
  flag h = 0x08 /\ flag h' = 0xe9 /\
  main_optional 8192 the_fd h w = main_optional 8192 the_fd h' w.
Proof.
  cbv zeta. split; [reflexivity|]. split; [reflexivity|].
  apply optional_fields_ignore_other_bits; reflexivity.
Defined.

(** ** The bytes [main] looks at *)

(** The goals about twin worlds after one step. *)
Ltac twins :=
  unfold twin;
  cbn [fst snd emit set_open set_offset disk fd_open offset stdout];
  split_and!; first [reflexivity | assumption | lia | congruence].

Section Local.

Variables (f1 f2 : list byte) (k : Z).
Hypothesis agree : take (Z.to_nat k) f1 = take (Z.to_nat k) f2.

Lemma agree_ahead (o n : Z) :
  0 <= o -> o + Z.max 0 n <= k ->
  take (Z.to_nat n) (drop (Z.to_nat o) f1) =
  take (Z.to_nat n) (drop (Z.to_nat o) f2).
Proof.
  intros Ho Hk. rewrite !take_drop_commute.
  assert (Hmin : (Nat.min (Z.to_nat o + Z.to_nat n) (Z.to_nat k) =
                  Z.to_nat o + Z.to_nat n)%nat) by lia.
  rewrite <- Hmin, <- !take_take, agree. reflexivity.
Qed.

Lemma local_pure {A} (m : M A) (r : result A) :
  (forall w, m w = (r, w)) -> local f1 f2 k 0 m.
Proof.
  intros Hm w1 w2 Htw Ho Hk. rewrite !Hm. cbn [fst snd].
  split_and!; first [reflexivity | exact Htw | lia].
Qed.

Lemma local_ret {A} (a : A) : local f1 f2 k 0 (ret a).
Proof. apply (local_pure _ (Val a)). reflexivity. Qed.

Lemma local_exit {A} (s : Z) : local f1 f2 k 0 (exit s : M A).
Proof. apply (local_pure _ (Exit s)). reflexivity. Qed.

Lemma local_undefined {A} : local f1 f2 k 0 (undefined : M A).
Proof. apply (local_pure _ Undefined). reflexivity. Qed.

Lemma local_out_of_fuel {A} : local f1 f2 k 0 (out_of_fuel : M A).
Proof. apply (local_pure _ OutOfFuel). reflexivity. Qed.

Lemma local_weaken {A} (c c' : Z) (m : M A) :
  local f1 f2 k c m -> c <= c' -> local f1 f2 k c' m.
Proof.
  intros Hm Hc w1 w2 Htw Ho Hk.
  destruct (Hm w1 w2 Htw Ho ltac:(lia)) as (Hr & Htw' & Ho').
  split_and!; first [assumption | lia].
Qed.

Lemma local_bind {A B} (c1 c2 : Z) (m : M A) (g : A -> M B) :
  local f1 f2 k c1 m ->
  (forall a, local f1 f2 k c2 (g a)) ->
  0 <= c2 ->
  local f1 f2 k (c1 + c2) (bind m g).
Proof.
  intros Hm Hg Hc2 w1 w2 Htw Ho Hk.
  destruct (Hm w1 w2 Htw Ho ltac:(lia)) as (Hr & Htw' & Ho').
  unfold bind.
  destruct (m w1) as [r1 w1'], (m w2) as [r2 w2']. cbn [fst snd] in *. subst r2.
  destruct r1 as [a| | |]; cbn [fst snd].
  - destruct (Hg a w1' w2' Htw' ltac:(lia) ltac:(lia)) as (Hr & Htw'' & Ho'').
    split_and!; first [assumption | lia].
  - split_and!; first [reflexivity | assumption | lia].
  - split_and!; first [reflexivity | assumption | lia].
  - split_and!; first [reflexivity | assumption | lia].
Qed.

Lemma local_if {A} (c1 c2 : Z) (b : bool) (m1 m2 : M A) :
  local f1 f2 k c1 m1 -> local f1 f2 k c2 m2 ->
  local f1 f2 k (Z.max c1 c2) (if b then m1 else m2).
Proof.
  intros H1 H2. destruct b; [apply (local_weaken c1) | apply (local_weaken c2)];
    first [assumption | lia].
Qed.

Lemma local_when (c : Z) (b : bool) (m : M unit) :
  local f1 f2 k c m -> local f1 f2 k (Z.max c 0) (when b m).
Proof. intros Hm. unfold when. apply local_if; [exact Hm | apply local_ret]. Qed.

Lemma local_printf (e : event) : local f1 f2 k 0 (printf e).
Proof.
  intros w1 w2 (Hd1 & Hd2 & Hop & Hoff & Hout) Ho Hk.
  unfold printf. twins.
Qed.

Lemma twin_valid fd w1 w2 : twin f1 f2 w1 w2 -> valid_fd fd w1 = valid_fd fd w2.
Proof. intros (_ & _ & Hop & _). unfold valid_fd. rewrite Hop. reflexivity. Qed.

Lemma local_close (fd : Z) : local f1 f2 k 0 (close fd).
Proof.
  intros w1 w2 Htw Ho Hk. unfold close. rewrite (twin_valid fd w1 w2 Htw).
  destruct Htw as (Hd1 & Hd2 & Hop & Hoff & Hout).
  destruct (valid_fd fd w2); twins.
Qed.

Lemma local_read (fd : Z) (buf : cells) (n : Z) :
  local f1 f2 k (Z.max 0 n) (read fd buf n).
Proof.
  intros w1 w2 Htw Ho Hk. unfold read. rewrite (twin_valid fd w1 w2 Htw).
  destruct Htw as (Hd1 & Hd2 & Hop & Hoff & Hout). rewrite Hd1, Hd2.
  destruct (valid_fd fd w2); cbn [fst snd].
  - rewrite <- Hoff, (agree_ahead (offset w1) n Ho Hk).
    set (bs := take (Z.to_nat n) (drop (Z.to_nat (offset w1)) f2)).
    assert (Hlen : (length bs <= Z.to_nat n)%nat)
      by (unfold bs; rewrite length_take; lia).
    twins.
  - twins.
Qed.

Lemma local_lseek_back (fd off : Z) :
  off <= 0 -> local f1 f2 k 0 (lseek fd off SEEK_CUR).
Proof.
  intros Hback w1 w2 Htw Ho Hk. unfold lseek. rewrite (twin_valid fd w1 w2 Htw).
  destruct Htw as (Hd1 & Hd2 & Hop & Hoff & Hout). rewrite Hd1, Hd2.
  destruct (valid_fd fd w2); cbv zeta.
  - rewrite <- Hoff. destruct (Z.ltb_spec (offset w1 + off) 0); twins.
  - twins.
Qed.

Lemma local_load mem : local f1 f2 k 0 (load mem).
Proof.
  unfold load. destruct (defined mem); [apply local_ret | apply local_undefined].
Qed.

Lemma local_load_char mem : local f1 f2 k 0 (load_char mem).
Proof.
  unfold load_char.
  destruct mem as [|[b|] [|? ?]]; first [apply local_ret | apply local_undefined].
Qed.

Lemma local_load_string buf : local f1 f2 k 0 (load_string buf).
Proof.
  unfold load_string. destruct (c_string buf);
    [apply local_ret | apply local_undefined].
Qed.

Lemma local_store_at buf i v : local f1 f2 k 0 (store_at buf i v).
Proof.
  unfold store_at. destruct (store buf i v);
    [apply local_ret | apply local_undefined].
Qed.

Lemma local_too_few {A} (e : event) (fd s : Z) :
  local f1 f2 k 0 (printf e ;; close fd ;; exit s : M A).
Proof.
  apply (local_weaken (0 + (0 + 0))); [|lia].
  apply local_bind; [apply local_printf | intros ? | lia].
  apply local_bind; [apply local_close | intros ?; apply local_exit | lia].
Qed.

Lemma local_string_loop size wrap fd fuel :
  forall c len buf,
    local f1 f2 k (Z.of_nat fuel) (string_loop size wrap fd fuel c len buf).
Proof.
  induction fuel as [|fuel IH]; intros c len buf; cbn [string_loop].
  - apply local_out_of_fuel.
  - apply (local_weaken (Z.max 0 1 + Z.of_nat fuel)); [|lia].
    apply local_bind; [apply local_read | intros r; cbv zeta | lia].
    apply (local_weaken (Z.max 0 (Z.of_nat fuel))); [|lia].
    apply local_if; [apply local_too_few|].
    apply (local_weaken (0 + (0 + Z.of_nat fuel))); [|lia].
    apply local_bind; [apply local_load_char | intros v | lia].
    apply local_bind; [apply local_store_at | intros buf' | lia].
    apply (local_weaken (Z.max (Z.of_nat fuel) 0)); [|lia].
    apply local_if; [apply IH | apply local_ret].
Qed.

Lemma local_main_extra header :
  local f1 f2 k (Z.max 0 (xlen header)) (main_extra the_fd header).
Proof.
  unfold main_extra.
  apply (local_weaken (Z.max (Z.max 0 (Z.max 0 (xlen header) + 0)) 0)); [|lia].
  apply local_when, local_if; [apply local_undefined|]. cbv zeta.
  apply local_bind; [apply local_read | intros r | lia].
  apply (local_weaken (Z.max 0 (0 + 0))); [|lia].
  apply local_if; [apply local_too_few|].
  apply local_bind; [apply local_load | intros bs; apply local_printf | lia].
Qed.

Lemma local_string_block size wrap line :
  local f1 f2 k (Z.max 0 size) (string_block size wrap the_fd line).
Proof.
  unfold string_block.
  apply (local_weaken (Z.of_nat (Z.to_nat size) + (0 + (0 + 0)))); [|lia].
  apply local_bind; [apply local_string_loop | intros buf | lia].
  apply local_bind; [apply local_store_at | intros buf' | lia].
  apply local_bind; [apply local_load_string | intros s; apply local_printf | lia].
Qed.

Lemma local_main_filename header :
  local f1 f2 k 128 (main_filename the_fd header).
Proof.
  rewrite main_filename_block.
  apply (local_weaken (Z.max (Z.max (0 + 0) 0 + Z.max 0 128) 0)); [|lia].
  apply local_when.
  apply local_bind; [|intros ?; apply local_string_block | lia].
  apply local_when.
  apply local_bind; [apply local_lseek_back; lia | intros ?; apply local_ret | lia].
Qed.

Lemma local_main_comment BUFSIZ header :
  local f1 f2 k (Z.max 0 BUFSIZ) (main_comment BUFSIZ the_fd header).
Proof.
  rewrite main_comment_block.
  apply (local_weaken (Z.max (Z.max 0 BUFSIZ) 0)); [|lia].
  apply local_when, local_string_block.
Qed.

Lemma local_main_hcrc header : local f1 f2 k 2 (main_hcrc the_fd header).
Proof.
  unfold main_hcrc.
  apply (local_weaken (Z.max (Z.max 0 2 + 0) 0)); [|lia].
  apply local_when. cbv zeta.
  apply local_bind; [apply local_read | intros r | lia].
  apply (local_weaken (Z.max 0 (0 + 0))); [|lia].
  apply local_if; [apply local_too_few|].
  apply local_bind; [apply local_load | intros bs; apply local_printf | lia].
Qed.

Lemma local_main_optional BUFSIZ header :
  local f1 f2 k (Z.max 0 (xlen header) + 128 + Z.max 0 BUFSIZ + 2)
    (main_optional BUFSIZ the_fd header).
Proof.
  unfold main_optional.
  apply (local_weaken
           (Z.max 0 (xlen header) + (128 + (Z.max 0 BUFSIZ + 2)))); [|lia].
  apply local_bind; [apply local_main_extra | intros ? | lia].
  apply local_bind; [apply local_main_filename | intros ? | lia].
  apply local_bind;
    [apply local_main_comment | intros ?; apply local_main_hcrc | lia].
Qed.


End Local.

(** Go through the statements of a block, adding up what each may read. *)
Ltac reads :=
  lazymatch goal with
  | |- local _ _ _ _ (bind _ _) => eapply local_bind; [reads | intros ?; reads | lia]
  | |- local _ _ _ _ (when _ _) => eapply local_when; reads
  | |- local _ _ _ _ (if _ then _ else _) => eapply local_if; reads
  | |- local _ _ _ _ (printf _) => eapply local_printf
  | |- local _ _ _ _ (exit _) => eapply local_exit
  | |- local _ _ _ _ (ret _) => eapply local_ret
  end.

Lemma local_after_header (f1 f2 : list byte) (k BUFSIZ : Z) header :
  take (Z.to_nat k) f1 = take (Z.to_nat k) f2 ->
  local f1 f2 k (Z.max 0 (xlen header) + 128 + Z.max 0 BUFSIZ + 2)
    (main_magic header ;;
     main_method header ;;
     main_report header ;;
     main_optional BUFSIZ the_fd header).
Proof.
  intros agree.
  apply (local_weaken f1 f2 k
           (0 + (0 + (0 + (Z.max 0 (xlen header) + 128 + Z.max 0 BUFSIZ + 2)))));
    [|lia].
  apply local_bind; [|intros ?|lia].
  { eapply local_weaken; [unfold main_magic; reads | lia]. }
  apply local_bind; [|intros ?|lia].
  { eapply local_weaken; [unfold main_method; reads | lia]. }
  apply local_bind; [|intros ?; apply local_main_optional; exact agree|lia].
  eapply local_weaken; [unfold main_report; reads | lia].
Qed.

Lemma keeps_after_header f BUFSIZ header :
  keeps f (main_magic header ;;
           main_method header ;;
           main_report header ;;
           main_optional BUFSIZ the_fd header).
Proof.
  auto using keeps_bind, keeps_main_magic, keeps_main_method,
    keeps_main_report, keeps_main_optional.
Qed.

(** X12: [main] looks at the start of the file and at its last eight
    bytes only.  Two files of twelve bytes or more that agree on their
    first 12 + xlen + 128 + BUFSIZ + 2 bytes (the fixed header and the
    most the optional fields can take) and on their last eight bytes give
    the same exit status, the same output and the same state of the
    descriptor: the compressed data in between is never read. *)
Theorem compressed_data_ignored (BUFSIZ : Z) (f1 f2 : list byte) :
  0 <= BUFSIZ ->
  (12 <= length f1)%nat ->
  let header := header_of_bytes (take 12 f1) in
  let k := Z.to_nat (12 + xlen header + 128 + BUFSIZ + 2) in
  take k f1 = take k f2 ->
  drop (length f1 - 8) f1 = drop (length f2 - 8) f2 ->
  let run1 := main BUFSIZ 2 (boot (Some f1)) in
  let run2 := main BUFSIZ 2 (boot (Some f2)) in
  run1.1 = run2.1 /\
  stdout run1.2 = stdout run2.2 /\
  fd_open run1.2 = fd_open run2.2.
Proof.
  intros HB Hlen1 header k Hagree Hlast run1 run2.
  pose proof (xlen_range (take 12 f1)) as Hx. fold header in Hx.
  assert (Hk : (12 <= k)%nat) by (unfold k; lia).
  assert (Hlen2 : (12 <= length f2)%nat).
  { assert (Hl : length (take k f1) = length (take k f2)) by (rewrite Hagree; reflexivity).
    rewrite !length_take in Hl. lia. }
  assert (H12 : take 12 f1 = take 12 f2).
  { replace 12%nat with (Nat.min 12 k) by lia.
    rewrite <- !take_take, Hagree. reflexivity. }
  subst run1 run2. rewrite !main_long by assumption. cbv zeta.
  rewrite <- H12. fold header.
  set (m := (main_magic header ;; main_method header ;; main_report header ;;
             main_optional BUFSIZ the_fd header)).
  set (w1 := World (Some f1) true 12 []). set (w2 := World (Some f2) true 12 []).
  assert (Htw : twin f1 f2 w1 w2) by (repeat split).
  destruct (local_after_header f1 f2 (Z.of_nat k) BUFSIZ header
              ltac:(rewrite Nat2Z.id; exact Hagree) w1 w2 Htw
              ltac:(cbn; lia) ltac:(unfold k; cbn [offset w1]; lia))
    as (Hr & Htw' & _).
  fold m in Hr, Htw'.
  pose proof (keeps_after_header f1 BUFSIZ header w1) as Hk1.
  pose proof (keeps_after_header f2 BUFSIZ header w2) as Hk2.
  fold m in Hk1, Hk2.
  destruct (m w1) as [r1 w1'] eqn:E1. destruct (m w2) as [r2 w2'] eqn:E2.
  cbn [fst snd] in Hr, Htw'.
  subst r2. destruct Htw' as (_ & _ & Hop & _ & Hout).
  destruct r1 as [[]| | |];
    try (unfold bind; rewrite E1, E2; cbn [fst snd];
         split_and!; first [reflexivity | assumption]).
  rewrite (bind_val _ _ _ _ _ E1), (bind_val _ _ _ _ _ E2).
  assert (Hw1 : opened f1 w1') by (apply (Hk1 tt w1'); [repeat split; cbn; lia | reflexivity]).
  assert (Hw2 : opened f2 w2') by (apply (Hk2 tt w2'); [repeat split; cbn; lia | reflexivity]).
  rewrite (main_trailer_opened f1 w1' Hw1), (main_trailer_opened f2 w2' Hw2) by lia.
  cbn [fst snd stdout fd_open]. rewrite Hout, Hlast.
  split_and!; reflexivity.
Qed.

Lemma compressed_data_ignored_witness :
  let f1 := [x1f; x8b; x08; x00; x00; x00; x00; x00; x00; x03; x00; x00] ++
            replicate 400 x00 ++ [x11] ++
            [xde; xad; xbe; xef; x0a; x00; x00; x00] in
  let f2 := [x1f; x8b; x08; x00; x00; x00; x00; x00; x00; x03; x00; x00] ++
            replicate 400 x00 ++ [x22; x33; x44] ++
            [xde; xad; xbe; xef; x0a; x00; x00; x00] in
  f1 <> f2 /\
  (main 256 2 (boot (Some f1))).1 = (main 256 2 (boot (Some f2))).1 /\
  stdout (main 256 2 (boot (Some f1))).2 = stdout (main 256 2 (boot (Some f2))).2 /\
  fd_open (main 256 2 (boot (Some f1))).2 = fd_open (main 256 2 (boot (Some f2))).2.
Proof.
  cbv zeta. split.
  - intros Heq. apply (f_equal length) in Heq. vm_compute in Heq. discriminate.
  - apply compressed_data_ignored.
    + lia.
    + vm_compute. lia.
    + vm_compute. reflexivity.
    + vm_compute. reflexivity.
Defined.

(** X13: before it turns to the trailer, [main] never moves the file
    offset beyond 12 + xlen + 128 + BUFSIZ + 2, however long the file is
    and however the header stage ends. *)
Theorem header_stage_reads_bounded (BUFSIZ : Z) (f : list byte)
    (r : result unit) (w' : world) :
  0 <= BUFSIZ ->
  main_head BUFSIZ the_fd (World (Some f) true 0 []) = (r, w') ->
  0 <= offset w' <=
    12 + xlen (header_of_bytes (take 12 f)) + 128 + BUFSIZ + 2.
Proof.
  intros HB Hrun.
  pose proof (xlen_range (take 12 f)) as Hx.
  set (header := header_of_bytes (take 12 f)) in *.
  pose proof (opened_start f) as H0.
  destruct (le_lt_dec 12 (length f)) as [Hlen|Hlen].
  - unfold main_head in Hrun.
    rewrite (bind_val _ _ _ _ _ (main_header_full f _ H0 eq_refl Hlen)) in Hrun.
    fold header in Hrun.
    set (w := set_offset 12 (World (Some f) true 0 [])) in Hrun.
    destruct (local_after_header f f
                (12 + xlen header + 128 + BUFSIZ + 2) BUFSIZ header eq_refl w w
                ltac:(repeat split) ltac:(cbn; lia) ltac:(cbn [offset w set_offset]; lia))
      as (_ & _ & Ho).
    rewrite Hrun in Ho. cbn [snd offset w set_offset] in Ho. lia.
  - unfold main_head in Hrun.
    rewrite (bind_exit _ _ _ _ _ (main_header_short f _ H0 eq_refl Hlen)) in Hrun.
    injection Hrun as _ <-. cbn [offset set_open emit set_offset]. lia.
Qed.

Lemma header_stage_reads_bounded_witness :
  let f := [x1f; x8b; x08; x08; x00; x00; x00; x00; x00; x03] ++
           replicate 1000 x41 in
  main_head 256 the_fd (World (Some f) true 0 []) =
    (Val tt,
     World (Some f) true 138
       [ValidGzip; Deflate; FlagsSet; FlagName FNAME; FlagsEnd; Xfl 0; Os true;
        Filename (replicate 127 x41)]) /\
  0 <= 138 <= 12 + xlen (header_of_bytes (take 12 f)) + 128 + 256 + 2.
Proof.
  cbv zeta.
  assert (Hrun : main_head 256 the_fd
            (World (Some ([x1f; x8b; x08; x08; x00; x00; x00; x00; x00; x03] ++
                          replicate 1000 x41)) true 0 []) =
          (Val tt,
           World (Some ([x1f; x8b; x08; x08; x00; x00; x00; x00; x00; x03] ++
                        replicate 1000 x41)) true 138
             [ValidGzip; Deflate; FlagsSet; FlagName FNAME; FlagsEnd; Xfl 0;
              Os true; Filename (replicate 127 x41)]))
    by (vm_compute; reflexivity).
  split; [exact Hrun|].
  exact (header_stage_reads_bounded 256 _ _ _ ltac:(lia) Hrun).
Defined.

(** ** Files shorter than the structure *)

(** X14: every file shorter than twelve bytes, the empty file and a file
    that holds a complete ten-byte gzip header included, is reported as
    "read too few bytes!": all of it is consumed by the one [read], the
    descriptor is closed, [main] returns -1 and nothing else is printed. *)
Theorem short_file_truncated (BUFSIZ : Z) (f : list byte) :
  (length f < 12)%nat ->
  main BUFSIZ 2 (boot (Some f)) =
    (Exit (-1), World (Some f) false (Z.of_nat (length f)) [TooFewBytes]) /\
  failure (main BUFSIZ 2 (boot (Some f))) = Some TruncatedInput.
Proof.
  intros Hlen. rewrite main_short by exact Hlen. split; reflexivity.
Qed.

Lemma short_file_truncated_witness :
  let f := [x1f; x8b; x08; x00; x00; x00; x00; x00; x00; x03] in
  main 8192 2 (boot (Some f)) =
    (Exit (-1), World (Some f) false 10 [TooFewBytes]) /\
  failure (main 8192 2 (boot (Some f))) = Some TruncatedInput.
Proof.
  cbv zeta.
  apply (short_file_truncated 8192
           [x1f; x8b; x08; x00; x00; x00; x00; x00; x00; x03]).
  cbn. lia.
Defined.

(** ** A file name longer than the array *)

Lemma ahead_moved f w w' n :
  0 <= offset w -> offset w' = offset w + Z.of_nat n ->
  ahead f w' = drop n (ahead f w).
Proof.
  intros Ho Hw'. unfold ahead. rewrite Hw', drop_drop. f_equal. lia.
Qed.

(** X15: a file name of 128 bytes or more is cut and not skipped.  With
    FNAME and FCOMMENT set and, where the name starts, 128 bytes [t]
    without a zero byte followed by fewer than [BUFSIZ] bytes [u] without
    a zero byte and then a zero byte, the name printed is the first 127
    bytes of [t], byte 128 is dropped, and the rest [u] of the name is
    printed as the comment: the comment of the file is not reached. *)
Theorem long_name_runs_into_comment (BUFSIZ : Z) (f : list byte)
    (header : gzip_header) (w : world) (t u rest : list byte) :
  0 < BUFSIZ <= INT_MAX ->
  opened f w ->
  flag_set header FNAME = true ->
  flag_set header FCOMMENT = true ->
  (flag_set header FEXTRA = false -> 2 <= offset w) ->
  let start := if flag_set header FEXTRA then w else set_offset (offset w - 2) w in
  ahead f start = t ++ u ++ x00 :: rest ->
  length t = 128%nat ->
  x00 ∉ t ->
  x00 ∉ u ->
  Z.of_nat (length u) < BUFSIZ ->
  (main_filename the_fd header ;; main_comment BUFSIZ the_fd header) w =
    (Val tt,
     World (Some f) true (offset start + 128 + Z.of_nat (length u) + 1)
       (stdout w ++ [Filename (take 127 t); Comment u])).
Proof.
  intros HB Hw Hname Hcomment Hoff start Hs Hlen Ht Hu Hulen.
  destruct (main_filename_start f header w Hw Hname Hoff) as [Hstart Hrun].
  fold start in Hstart, Hrun.
  assert (Hout : stdout start = stdout w)
    by (subst start; destruct (flag_set header FEXTRA); reflexivity).
  assert (Ho : 0 <= offset start) by (destruct Hstart as (_ & _ & ?); assumption).
  pose proof (string_block_full 128 uint8 f Filename ltac:(lia) uint8_small
                start t (u ++ x00 :: rest) Hstart Hs Ht ltac:(lia)) as Hfull.
  rewrite <- Hrun in Hfull. rewrite (bind_val _ _ _ _ _ Hfull).
  set (w1 := emit _ (set_offset (offset start + 128) start)).
  assert (Hw1 : opened f w1)
    by (apply opened_emit, opened_set_offset; [exact Hstart | lia]).
  assert (Hs1 : ahead f w1 = u ++ x00 :: rest).
  { rewrite (ahead_moved f start w1 128 Ho) by reflexivity.
    rewrite Hs. rewrite drop_app_length' by (symmetry; exact Hlen). reflexivity. }
  assert (Hwrap : forall i, 0 <= i <= BUFSIZ -> uint32 i = i)
    by (intros i; apply uint32_upto; lia).
  rewrite main_comment_block, Hcomment. cbn [when].
  rewrite (string_block_terminated BUFSIZ uint32 f Comment ltac:(lia) Hwrap
             w1 u rest Hw1 Hs1 Hu Hulen).
  unfold w1, emit, set_offset. cbn [disk fd_open offset stdout].
  destruct Hstart as (-> & -> & _). rewrite Hout, <- app_assoc. reflexivity.
Qed.

Lemma long_name_runs_into_comment_witness :
  let f := [x1f; x8b; x08; x18; x00; x00; x00; x00; x00; x03] ++
           replicate 128 x41 ++ [x42; x43] ++ x00 :: [x68; x69; x00] in
  let header := header_of_bytes (take 12 f) in
  let w := World (Some f) true 12 [] in
  (main_filename the_fd header ;; main_comment 8192 the_fd header) w =
    (Val tt,
     World (Some f) true 141 [Filename (replicate 127 x41); Comment [x42; x43]]).
Proof.
  cbv zeta.
  match goal with
  | |- (main_filename _ ?h ;; _) (World (Some ?f) ?o ?p ?q) = _ =>
      rewrite (long_name_runs_into_comment 8192 f h (World (Some f) o p q)
                 (replicate 128 x41) [x42; x43] [x68; x69; x00])
  end.
  - reflexivity.
  - unfold INT_MAX. lia.
  - repeat split; cbn; lia.
  - reflexivity.
  - reflexivity.
  - intros _. cbn. lia.
  - reflexivity.
  - reflexivity.
  - intros Hin. apply elem_of_replicate in Hin as [? _]. discriminate.
  - rewrite !not_elem_of_cons. repeat split; try discriminate. apply not_elem_of_nil.
  - cbn. lia.
Defined.
